(** * ecs_composex: volume binding, Kinesis lookup and cluster template

    A shallow embedding of
    - [ecs_composex/common/__init__.py]            (the [KEYISSET] and
      [KEYPRESENT] macros and the validation functions),
    - [ecs_composex/compose/compose_volumes/services_helpers.py],
    - [ecs_composex/kinesis/kinesis_stack.py],
    - [ecs_composex/cluster/cluster_template.py],
    together with the properties of the specification that concern them
    and further properties of the code.

    Python objects that are mutated in place (services, volumes, resources)
    live in lists that play the role of the heap: an object is named by its
    position, [l !! i] reads it and [alter f i l] mutates it.  Python
    dictionaries are association lists in insertion order.  Calls to the
    logger write to the process log only; they never raise and never change
    the data, and are left out. *)

From Stdlib Require Import String Ascii ZArith NArith List Bool Lia Permutation
  DecimalString.
From stdpp Require Import base option list strings.

Local Open Scope string_scope.
Local Open Scope list_scope.

(** ** Python values *)

Module Py.

(** The values a compose document and a volume configuration hold.  A
    character is a code point below 256.  [VVolume i] is a reference to the
    [ComposeVolume] object at position [i] of the working volume list.
    Floating-point numbers are outside the model. *)
#[warnings="-register-all"]
Inductive value : Type :=
| VNone
| VBool (b : bool)
| VInt (z : Z)
| VStr (s : string)
| VList (l : list value)
| VDict (d : list (string * value))
| VVolume (ref : nat).

(** Truth value of an object, as [if x:] computes it. *)
Definition truthy (v : value) : bool :=
  match v with
  | VNone => false
  | VBool b => b
  | VInt z => negb (Z.eqb z 0)
  | VStr s => negb (String.eqb s "")
  | VList l => match l with [] => false | _ => true end
  | VDict d => match d with [] => false | _ => true end
  | VVolume _ => true
  end.

(** Exceptions raised by the embedded code.  [LookupError source names]
    stands for the message
    [f"Volume {source} was not found in {names}"].  A
    [ResourceNotFoundException] is the [ClientError] subclass that botocore
    raises for that error code; [ClientError code] is any other one. *)
Inductive exn : Type :=
| ValueError (args : list value)
| KeyError (args : list value)
| LookupError (source : value) (names : list string)
| AttributeError (v : value) (attr : string)
| TypeError (msg : string)
| NameError (name : string)
| ResourceNotFoundException (msg : string)
| ClientError (code : string) (msg : string).

Inductive outcome (A : Type) : Type :=
| Return (a : A)
| Raise (e : exn).
Arguments Return {A} a.
Arguments Raise {A} e.

(** *** Dictionaries *)

Fixpoint dict_get (k : string) (d : list (string * value)) : option value :=
  match d with
  | [] => None
  | (k', v) :: d' => if String.eqb k k' then Some v else dict_get k d'
  end.

(** [d[k] = v]: the value is replaced where the key is, appended otherwise. *)
Fixpoint dict_set (k : string) (v : value) (d : list (string * value))
  : list (string * value) :=
  match d with
  | [] => [(k, v)]
  | (k', v') :: d' =>
      if String.eqb k k' then (k', v) :: d' else (k', v') :: dict_set k v d'
  end.

(** [d.update(e)] *)
Definition dict_update (d e : list (string * value)) : list (string * value) :=
  fold_left (fun acc kv => dict_set (fst kv) (snd kv) acc) e d.

Definition dict_keys (d : list (string * value)) : list value :=
  map (fun kv => VStr (fst kv)) d.

(** [k in y.keys()] for a value [y] known to be a dict. *)
Definition has_key (k : string) (d : list (string * value)) : bool :=
  match dict_get k d with Some _ => true | None => false end.

(** [y[k]]; a missing key raises [KeyError(k)]. *)
Definition getitem (y : value) (k : string) : outcome value :=
  match y with
  | VDict d =>
      match dict_get k d with
      | Some v => Return v
      | None => Raise (KeyError [VStr k])
      end
  | _ => Raise (TypeError "object is not subscriptable")
  end.

(** [y[k] = v] on a dict value. *)
Definition setitem (y : value) (k : string) (v : value) : value :=
  match y with
  | VDict d => VDict (dict_set k v d)
  | _ => y
  end.

(** [KEYISSET(x, y)] of [common/__init__.py] (the [keyisset] macro):
    [isinstance(y, dict) and x in y.keys() and y[x]]. *)
Definition keyisset (x : string) (y : value) : bool :=
  match y with
  | VDict d =>
      match dict_get x d with
      | Some v => truthy v
      | None => false
      end
  | _ => false
  end.

(** [KEYPRESENT(x, y)]: [isinstance(y, dict) and x in y.keys()]. *)
Definition keypresent (x : string) (y : value) : bool :=
  match y with
  | VDict d => has_key x d
  | _ => false
  end.

(** [v.startswith(p)]; only strings have the method. *)
Definition startswith (v : value) (p : string) : outcome bool :=
  match v with
  | VStr s => Return (String.prefix p s)
  | _ => Raise (AttributeError v "startswith")
  end.

(** [name == v] for a string [name]. *)
Definition str_eq (name : string) (v : value) : bool :=
  match v with
  | VStr s => String.eqb name s
  | _ => false
  end.

End Py.
Export Py.

(** ** The pattern matcher of [re]

    A backtracking matcher for the fragment of Python's [re] syntax that
    [path_finder] uses: character classes, a greedy [+] over a class,
    literals, concatenation, alternation, a greedy optional and named
    groups.  Alternatives are tried in the order [re] tries them; the
    continuation receives the rest of the subject and the groups captured
    on the path that led there, so groups set on an abandoned path are
    forgotten. *)

Module Re.

Inductive regex : Type :=
| Class (p : ascii -> bool)
| Plus (p : ascii -> bool)
| Lit (c : ascii)
| Cat (r1 r2 : regex)
| Alt (r1 r2 : regex)
| Opt (r : regex)
| Group (name : string) (r : regex).

Definition groups : Type := list (string * string).

Fixpoint group (name : string) (g : groups) : option string :=
  match g with
  | [] => None
  | (n, s) :: g' => if String.eqb name n then Some s else group name g'
  end.

Section Matcher.
Context {A : Type}.

(** Greedy [p*]: as many characters as possible first, then fewer. *)
Fixpoint star (p : ascii -> bool) (s : string) (k : string -> option A)
  : option A :=
  match s with
  | String c s' =>
      if p c then
        match star p s' k with
        | Some a => Some a
        | None => k s
        end
      else k s
  | EmptyString => k s
  end.

Fixpoint run (r : regex) (s : string) (g : groups)
    (k : string -> groups -> option A) : option A :=
  match r with
  | Class p =>
      match s with
      | String c s' => if p c then k s' g else None
      | EmptyString => None
      end
  | Plus p =>
      match s with
      | String c s' => if p c then star p s' (fun t => k t g) else None
      | EmptyString => None
      end
  | Lit c =>
      match s with
      | String c' s' => if Ascii.eqb c c' then k s' g else None
      | EmptyString => None
      end
  | Cat r1 r2 => run r1 s g (fun t g1 => run r2 t g1 k)
  | Alt r1 r2 =>
      match run r1 s g k with
      | Some a => Some a
      | None => run r2 s g k
      end
  | Opt r1 =>
      match run r1 s g k with
      | Some a => Some a
      | None => k s g
      end
  | Group name r1 =>
      run r1 s g
        (fun t g1 =>
           k t ((name, substring 0 (String.length s - String.length t) s) :: g1))
  end.
End Matcher.

(** [pattern.match(s)]: the match is anchored at the start of [s] only. *)
Definition re_match (r : regex) (s : string) : option groups :=
  run r s [] (fun _ g => Some g).

(** Character classes.  [\s] of a [str] pattern is [str.isspace] on one
    character. *)
Definition isspace (c : ascii) : bool :=
  let n := nat_of_ascii c in
  (Nat.leb 9 n && Nat.leb n 13) || (Nat.leb 28 n && Nat.leb n 32)
  || Nat.eqb n 133 || Nat.eqb n 160.

Definition non_space (c : ascii) : bool := negb (isspace c).
Definition not_colon (c : ascii) : bool := negb (Ascii.eqb c ":").
Definition not_colon_nl (c : ascii) : bool :=
  negb (Ascii.eqb c ":") && negb (Ascii.eqb c "010").

End Re.

(** ** Volume binding: [compose/compose_volumes/services_helpers.py] *)

Module Volumes.
Import Re.

(** Modelled from the spec: the class [ComposeVolume] of
    [compose/compose_volumes/__init__.py], which is not among the sources:
    a named, optionally auto-generated volume declaration that holds the
    services attached to it.  It is a plain object, not a dict. *)
Record ComposeVolume : Type := {
  vol_name : string;
  vol_definition : value;
  vol_services : list nat;
  autogenerated : bool
}.

(** Modelled from the spec: [ComposeVolume.main_key], the name of the
    [volumes] section of the compose document. *)
Definition main_key : string := "volumes".

(** Modelled from the spec: the constructor [ComposeVolume(name, definition)]. *)
Definition ComposeVolume_init (name : string) (definition : value) : ComposeVolume :=
  {| vol_name := name; vol_definition := definition;
     vol_services := []; autogenerated := false |}.

Definition set_autogenerated (b : bool) (v : ComposeVolume) : ComposeVolume :=
  {| vol_name := vol_name v; vol_definition := vol_definition v;
     vol_services := vol_services v; autogenerated := b |}.

Definition add_service (service : nat) (v : ComposeVolume) : ComposeVolume :=
  {| vol_name := vol_name v; vol_definition := vol_definition v;
     vol_services := vol_services v ++ [service];
     autogenerated := autogenerated v |}.

(** A service: its name, its definition in the compose document, its
    volume-attachment records and its tmpfs mount specs. *)
Record ComposeService : Type := {
  name : string;
  definition : value;
  volumes : list value;
  tmpfses : list value
}.

Definition add_volume_config (cfg : value) (s : ComposeService) : ComposeService :=
  {| name := name s; definition := definition s;
     volumes := volumes s ++ [cfg]; tmpfses := tmpfses s |}.

Definition add_tmpfs (def : value) (s : ComposeService) : ComposeService :=
  {| name := name s; definition := definition s;
     volumes := volumes s; tmpfses := tmpfses s ++ [def] |}.

(** The mutable state the helpers work on: the services (a service is named
    by its position), the working volume list [volumes] (a volume object is
    named by its position in it) and the source of randomness of [uuid4]:
    [urandom n] is the [n]-th block of sixteen random bytes, read as a
    big-endian number, and [drawn] counts the blocks used so far. *)
Record world : Type := {
  svcs : list ComposeService;
  vols : list ComposeVolume;
  urandom : nat -> N;
  drawn : nat
}.

Definition with_svcs (l : list ComposeService) (w : world) : world :=
  {| svcs := l; vols := vols w; urandom := urandom w; drawn := drawn w |}.
Definition with_vols (l : list ComposeVolume) (w : world) : world :=
  {| svcs := svcs w; vols := l; urandom := urandom w; drawn := drawn w |}.

(** *** Computations that read and write the state and may raise *)

Definition M (A : Type) : Type := world -> outcome A * world.

Definition ret {A} (a : A) : M A := fun w => (Return a, w).
Definition raise {A} (e : exn) : M A := fun w => (Raise e, w).
Definition lift {A} (o : outcome A) : M A := fun w => (o, w).
Definition bind {A B} (m : M A) (f : A -> M B) : M B :=
  fun w =>
    match m w with
    | (Return a, w') => f a w'
    | (Raise e, w') => (Raise e, w')
    end.

Notation "'let*' x ':=' m 'in' k" := (bind m (fun x => k))
  (at level 10, x name, m at level 100, k at level 200).
Notation "m ';;' k" := (bind m (fun _ => k))
  (at level 100, k at level 200, right associativity).

Definition get_vols : M (list ComposeVolume) := fun w => (Return (vols w), w).

(** [service.volumes.append(cfg)]; a reference to no object behaves as
    [None]. *)
Definition service_volumes_append (service : nat) (cfg : value) : M unit :=
  fun w =>
    match svcs w !! service with
    | Some _ => (Return tt, with_svcs (alter (add_volume_config cfg) service (svcs w)) w)
    | None => (Raise (AttributeError VNone "volumes"), w)
    end.

(** [service.tmpfses.append(def)] *)
Definition service_tmpfses_append (service : nat) (def : value) : M unit :=
  fun w =>
    match svcs w !! service with
    | Some _ => (Return tt, with_svcs (alter (add_tmpfs def) service (svcs w)) w)
    | None => (Raise (AttributeError VNone "tmpfses"), w)
    end.

(** [service.name] and [service.definition] *)
Definition service_name (service : nat) : M string :=
  fun w =>
    match svcs w !! service with
    | Some s => (Return (name s), w)
    | None => (Raise (AttributeError VNone "name"), w)
    end.

Definition service_definition (service : nat) : M value :=
  fun w =>
    match svcs w !! service with
    | Some s => (Return (definition s), w)
    | None => (Raise (AttributeError VNone "definition"), w)
    end.

(** [volume.services.append(service)] for the volume at position [i]. *)
Definition volume_services_append (i service : nat) : M unit :=
  fun w => (Return tt, with_vols (alter (add_service service) i (vols w)) w).

(** [volumes.append(v)]; the result is the position of the new object. *)
Definition volumes_append (v : ComposeVolume) : M nat :=
  fun w => (Return (length (vols w)), with_vols (vols w ++ [v]) w).

(** *** [match_volumes_services_config] *)

(** The [for volume in volumes] loop; [i] is the position of the head of
    [todo] in the list.  The result tells whether the loop left the
    function by [return]. *)
Fixpoint scan_volumes (service : nat) (vol_config : value) (i : nat)
    (todo : list ComposeVolume) : M bool :=
  match todo with
  | [] => ret false
  | volume :: todo' =>
      if negb (keyisset "source" vol_config) && negb (keyisset "volume" (VVolume i))
      then scan_volumes service vol_config (S i) todo'
      else
        let* src := lift (getitem vol_config "source") in
        if str_eq (vol_name volume) src then
          volume_services_append i service ;;
          let vol_config := setitem vol_config "volume" (VVolume i) in
          service_volumes_append service vol_config ;;
          ret true
        else scan_volumes service vol_config (S i) todo'
  end.

Definition match_volumes_services_config (service : nat) (vol_config : value)
  : M unit :=
  let* host :=
    (if keyisset "source" vol_config
     then let* src := lift (getitem vol_config "source") in
          lift (startswith src "/")
     else ret false) in
  if host then
    let vol_config := setitem vol_config "volume" VNone in
    service_volumes_append service vol_config
  else
    let* volumes := get_vols in
    let* returned := scan_volumes service vol_config 0 volumes in
    if returned then ret tt
    else
      let* src := lift (getitem vol_config "source") in
      let* volumes := get_vols in
      raise (LookupError src (map vol_name volumes)).

(** *** [uuid4().hex] of Python's [uuid] module

    [UUID(bytes=os.urandom(16), version=4)] fixes the variant and version
    bits of the number read from the random bytes; [hex] prints it as 32
    lower-case hexadecimal digits. *)

Definition uuid4_int (r : N) : N :=
  let i := N.land r (N.ones 128) in
  let i := N.ldiff i (N.shiftl 0xc000 48) in
  let i := N.lor i (N.shiftl 0x8000 48) in
  let i := N.ldiff i (N.shiftl 0xf000 64) in
  N.lor i (N.shiftl 4 76).

Definition hex_digit (d : N) : ascii :=
  match d with
  | 0 => "0" | 1 => "1" | 2 => "2" | 3 => "3" | 4 => "4" | 5 => "5"
  | 6 => "6" | 7 => "7" | 8 => "8" | 9 => "9" | 10 => "a" | 11 => "b"
  | 12 => "c" | 13 => "d" | 14 => "e" | _ => "f"
  end%N%char.

(** The [k] low hexadecimal digits of [n], most significant first, in
    front of [acc]. *)
Fixpoint hex_digits (k : nat) (n : N) (acc : string) : string :=
  match k with
  | O => acc
  | S k' => hex_digits k' (N.shiftr n 4) (String (hex_digit (N.land n 15)) acc)
  end.

Definition hex (n : N) : string := hex_digits 32 n "".

Definition uuid4_hex : M string :=
  fun w =>
    (Return (hex (uuid4_int (urandom w (drawn w)))),
     {| svcs := svcs w; vols := vols w; urandom := urandom w;
        drawn := S (drawn w) |}).

(** *** [handle_volume_str_config] *)

(** [(?:(?P<source>[\S][^:]+):)?(?P<target>/[^:\n]+)(?::(?P<mode>ro|rw))?] *)
Definition path_finder : regex :=
  Cat (Opt (Cat (Group "source" (Cat (Class non_space) (Plus not_colon)))
                (Lit ":")))
      (Cat (Group "target" (Cat (Lit "/") (Plus not_colon_nl)))
           (Opt (Cat (Lit ":")
                     (Group "mode" (Alt (Cat (Lit "r") (Lit "o"))
                                        (Cat (Lit "r") (Lit "w"))))))).

Definition path_finder_pattern : string :=
  "(?:(?P<source>[\S][^:]+):)?(?P<target>/[^:\n]+)(?::(?P<mode>ro|rw))?".

(** Truth value of [path_match.group(n)]: a group that took no part in the
    match is [None], an empty one is false as well. *)
Definition group_set (n : string) (g : groups) : option string :=
  match group n g with
  | Some s => if String.eqb s "" then None else Some s
  | None => None
  end.

Definition handle_volume_str_config (service : nat) (config : string) : M unit :=
  let volume_config := VDict [("read_only", VBool false)] in
  let invalid :=
    ValueError
      [VStr ("Volume syntax " +:+ config +:+ " is invalid. Must follow the pattern");
       VStr path_finder_pattern] in
  match re_match path_finder config with
  | None => raise invalid
  | Some path_match =>
      match group_set "target" path_match with
      | None => raise invalid
      | Some target =>
          let volume_config := setitem volume_config "target" (VStr target) in
          let* volume_config :=
            (match group_set "source" path_match with
             | Some source => ret (setitem volume_config "source" (VStr source))
             | None =>
                 let* h := uuid4_hex in
                 let new_volume := ComposeVolume_init (substring 0 6 h) (VDict []) in
                 let new_volume := set_autogenerated true new_volume in
                 let* ref := volumes_append new_volume in
                 let volume_config :=
                   setitem volume_config "source" (VStr (vol_name new_volume)) in
                 ret (setitem volume_config "volume" (VVolume ref))
             end) in
          let volume_config :=
            match group_set "mode" path_match with
            | Some mode =>
                if String.eqb mode "ro"
                then setitem volume_config "read_only" (VBool true)
                else volume_config
            | None => volume_config
            end in
          match_volumes_services_config service volume_config
      end
  end.

(** *** [is_tmpfs] and [handle_volume_dict_config] *)

(** [keyisset(k, config) and config[k] == s] *)
Definition key_is (k s : string) (config : value) : outcome bool :=
  if keyisset k config then
    match getitem config k with
    | Return v => Return (str_eq s v)
    | Raise e => Raise e
    end
  else Return false.

Definition is_tmpfs (config : value) : outcome bool :=
  if keyisset "tmpfs" config then Return true
  else key_is "type" "tmpfs" config.

Definition required_keys : list string := ["target"; "source"].

(** [all(key in config.keys() for key in required_keys)] *)
Definition has_required_keys (config : value) : outcome bool :=
  match config with
  | VDict d => Return (forallb (fun key => has_key key d) required_keys)
  | _ => Raise (AttributeError config "keys")
  end.

Definition handle_volume_dict_config (service : nat) (config : value) : M unit :=
  let volume_config := [("read_only", VBool false)] in
  let* tmpfs := lift (is_tmpfs config) in
  let* missing :=
    (if tmpfs then ret false
     else let* ok := lift (has_required_keys config) in ret (negb ok)) in
  if missing then
    match config with
    | VDict d =>
        raise (KeyError [VStr "Volume configuration, when not tmpfs, requires at least";
                         VList (map VStr required_keys); VStr "Got";
                         VList (dict_keys d)])
    | _ => raise (AttributeError config "keys")
    end
  else
    match config with
    | VDict d =>
        let volume_config := VDict (dict_update volume_config d) in
        let* tmpfs := lift (is_tmpfs volume_config) in
        if tmpfs then ret tt
        else match_volumes_services_config service volume_config
    | _ => raise (TypeError "object is not iterable")
    end.

(** *** [int(x)]

    The conversion of CPython 3.11 with its default settings. *)

Definition is_digit (c : ascii) : bool :=
  let n := nat_of_ascii c in Nat.leb 48 n && Nat.leb n 57.

(** The white space that [int] skips around a number: the white space of
    C, and the Unicode spaces, which [int] turns into blanks first.  The
    separators U+001C to U+001F, which [str.isspace] takes, are not among
    them. *)
Definition int_space (c : ascii) : bool :=
  let n := nat_of_ascii c in
  (Nat.leb 9 n && Nat.leb n 13) || Nat.eqb n 32 || Nat.eqb n 133
  || Nat.eqb n 160.

Fixpoint skip (p : ascii -> bool) (s : string) : string :=
  match s with
  | String c s' => if p c then skip p s' else s
  | EmptyString => s
  end.

(** The digits at the start of a string, with single underscores between
    them: their value, their number and what follows them.  There is no
    result when an underscore comes first, follows an underscore or ends
    the digits, or when there is no digit; [no_digit] tells that the last
    character read was no digit. *)
Fixpoint digits (s : string) (acc : Z) (count : nat) (no_digit : bool)
  : option (Z * nat * string) :=
  match s with
  | String c s' =>
      if is_digit c
      then digits s' (10 * acc + Z.of_nat (nat_of_ascii c - 48))%Z (S count) false
      else if Ascii.eqb c "_"
           then (if no_digit then None else digits s' acc count true)
           else (if no_digit then None else Some (acc, count, s))
  | EmptyString => if no_digit then None else Some (acc, count, s)
  end.

(** [sys.get_int_max_str_digits()] *)
Definition max_str_digits : nat := 4300.

Inductive literal : Type :=
| Number (z : Z)
| TooLong (count : nat)
| Invalid.

(** The number a string denotes in base ten: white space, a sign, the
    digits, white space.  The digits are counted before what follows them
    is looked at. *)
Definition int_of_str (s : string) : literal :=
  let t := skip int_space s in
  let signed :=
    match t with
    | String "-" t' => (true, t')
    | String "+" t' => (false, t')
    | _ => (false, t)
    end in
  match digits (snd signed) 0 0 true with
  | None => Invalid
  | Some (z, count, rest) =>
      if Nat.ltb max_str_digits count then TooLong count
      else
        match skip int_space rest with
        | EmptyString => Number (if fst signed then Z.opp z else z)
        | String _ _ => Invalid
        end
  end.

(** [repr(s)] of a string. *)
Definition double_quote : ascii := "034".
Definition backslash : ascii := "092".

(** [str.isprintable] on one character. *)
Definition isprintable (c : ascii) : bool :=
  let n := nat_of_ascii c in
  (Nat.leb 32 n && Nat.leb n 126) || (Nat.leb 161 n && negb (Nat.eqb n 173)).

Fixpoint contains (c : ascii) (s : string) : bool :=
  match s with
  | String c' s' => Ascii.eqb c c' || contains c s'
  | EmptyString => false
  end.

Definition escape (quote c : ascii) : string :=
  if Ascii.eqb c quote || Ascii.eqb c backslash
  then String backslash (String c EmptyString)
  else if Ascii.eqb c "009" then String backslash "t"
  else if Ascii.eqb c "010" then String backslash "n"
  else if Ascii.eqb c "013" then String backslash "r"
  else if isprintable c then String c EmptyString
  else
    let n := nat_of_ascii c in
    String backslash
      (String "x"
         (String (hex_digit (N.of_nat (n / 16)))
            (String (hex_digit (N.of_nat (n mod 16))) EmptyString))).

Fixpoint escaped (quote : ascii) (s : string) : string :=
  match s with
  | String c s' => escape quote c +:+ escaped quote s'
  | EmptyString => EmptyString
  end.

Definition repr (s : string) : string :=
  let quote :=
    if contains "'" s && negb (contains double_quote s)
    then double_quote else "'"%char in
  String quote (escaped quote s +:+ String quote EmptyString).

(** [type(v).__name__] *)
Definition type_name (v : value) : string :=
  match v with
  | VNone => "NoneType"
  | VBool _ => "bool"
  | VInt _ => "int"
  | VStr _ => "str"
  | VList _ => "list"
  | VDict _ => "dict"
  | VVolume _ => "ComposeVolume"
  end.

(** The message of a [ValueError] shows at most two hundred characters of
    the [repr] of the string. *)
Definition int (v : value) : outcome Z :=
  match v with
  | VInt z => Return z
  | VBool b => Return (if b then 1 else 0)%Z
  | VStr s =>
      match int_of_str s with
      | Number z => Return z
      | TooLong count =>
          Raise (ValueError
                   [VStr ("Exceeds the limit ("
                          +:+ NilEmpty.string_of_uint (Nat.to_uint max_str_digits)
                          +:+ " digits) for integer string conversion: value has "
                          +:+ NilEmpty.string_of_uint (Nat.to_uint count)
                          +:+ " digits; use sys.set_int_max_str_digits() to increase the limit")])
      | Invalid =>
          Raise (ValueError
                   [VStr ("invalid literal for int() with base 10: "
                          +:+ substring 0 200 (repr s))])
      end
  | _ =>
      Raise (TypeError
               ("int() argument must be a string, a bytes-like object or a real number, not '"
                +:+ type_name v +:+ "'"))
  end.

(** *** [map_volumes] *)

(** The objects a [for] loop draws from a value. *)
Fixpoint chars (s : string) : list value :=
  match s with
  | EmptyString => []
  | String c s' => VStr (String c EmptyString) :: chars s'
  end.

Definition iterate (v : value) : outcome (list value) :=
  match v with
  | VList l => Return l
  | VDict d => Return (dict_keys d)
  | VStr s => Return (chars s)
  | _ => Raise (TypeError "object is not iterable")
  end.

Definition is_dict (v : value) : bool :=
  match v with VDict _ => true | _ => false end.
Definition is_str (v : value) : bool :=
  match v with VStr _ => true | _ => false end.

(** The condition of the first [if] of the loop:
    [isinstance(s_volume, dict) and (keyisset("type", s_volume) and
     s_volume["type"] == "tmpfs") or keyisset("tmpfs", s_volume)]. *)
Definition tmpfs_entry (s_volume : value) : outcome bool :=
  match (if is_dict s_volume then key_is "type" "tmpfs" s_volume
         else Return false) with
  | Return true => Return true
  | Return false => Return (keyisset "tmpfs" s_volume)
  | Raise e => Raise e
  end.

(** The [Size] entry of a tmpfs mount spec:
    [keyisset("tmpfs", s_volume) and isinstance(s_volume["tmpfs"], dict)
     and keyisset("size", s_volume["tmpfs"])]. *)
Definition tmpfs_size (s_volume : value) : outcome (option Z) :=
  if keyisset "tmpfs" s_volume then
    match getitem s_volume "tmpfs" with
    | Return t =>
        if is_dict t && keyisset "size" t then
          match getitem t "size" with
          | Return sz =>
              match int sz with
              | Return z => Return (Some z)
              | Raise e => Raise e
              end
          | Raise e => Raise e
          end
        else Return None
    | Raise e => Raise e
    end
  else Return None.

(** One turn of the loop of [map_volumes]. *)
Definition map_volume (service : nat) (s_volume : value) : M unit :=
  let* tmpfs := lift (tmpfs_entry s_volume) in
  if tmpfs then
    let tmpfs_def := VDict [] in
    if negb (keyisset "target" s_volume) then
      let* n := service_name service in
      raise (KeyError
               [VStr (n +:+ ".volumes - When defining tmpfs as volume, you must define a target")])
    else
      let* target := lift (getitem s_volume "target") in
      let tmpfs_def := setitem tmpfs_def "ContainerPath" target in
      let* size := lift (tmpfs_size s_volume) in
      let tmpfs_def :=
        match size with
        | Some z => setitem tmpfs_def "Size" (VInt z)
        | None => tmpfs_def
        end in
      service_tmpfses_append service tmpfs_def
  else
    let* volumes := get_vols in
    match volumes with
    | [] => ret tt
    | _ :: _ =>
        match s_volume with
        | VStr s => handle_volume_str_config service s
        | VDict _ => handle_volume_dict_config service s_volume
        | _ => ret tt
        end
    end.

Fixpoint map_volume_list (service : nat) (l : list value) : M unit :=
  match l with
  | [] => ret tt
  | s_volume :: l' => map_volume service s_volume ;; map_volume_list service l'
  end.

(** [map_volumes(service, volumes)].  The argument [volumes] is the volume
    list of the state; a call without it ([volumes=None]) is a call with
    the empty list, since the function only tests [not volumes] then. *)
Definition map_volumes (service : nat) : M unit :=
  let* def := service_definition service in
  if keyisset main_key def then
    let* section := lift (getitem def main_key) in
    let* l := lift (iterate section) in
    map_volume_list service l
  else ret tt.

End Volumes.

(** ** Kinesis streams: [kinesis/kinesis_stack.py] *)

Module Kinesis.

(** Modelled from the spec: the classification tag of an [XResource]
    (new, use or lookup), set from the [Lookup] and [Use] markers of its
    declaration by [compose/x_resources], which is not among the sources. *)
Inductive classification : Type := New | Use | Lookup.

Definition classification_eqb (a b : classification) : bool :=
  match a, b with
  | New, New | Use, Use | Lookup, Lookup => true
  | _, _ => false
  end.

Section Streams.
(** The parameters of [kinesis/kinesis_params.py] and the keys
    [RES_KEY] and [MAPPINGS_KEY], which are not among the sources. *)
Context {parameter : Type}.
Variables STREAM_ARN STREAM_ID STREAM_KMS_KEY_ID : parameter.
Variables RES_KEY MAPPINGS_KEY : string.

Definition mapping : Type := list (parameter * value).

(** [attributes_to_mapping] of the library [compose_x_common]. *)
Variable attributes_to_mapping :
  value -> list (parameter * string) -> outcome mapping.

(** A boto3 session and its Kinesis client. *)
Record kinesis_client : Type := {
  describe_stream : string -> outcome value
}.
Record session : Type := {
  client : string -> kinesis_client
}.

(** A [Stream] resource.  [account_id] and [resource_id] are what
    [lookup_resource] reads from the identifier of a lookup resource. *)
Record Stream : Type := {
  logical_name : string;
  tag : classification;
  lookup_session : session;
  account_id : string;
  resource_id : string;
  mappings : option mapping;
  stack : option string
}.

Definition set_mappings (m : option mapping) (r : Stream) : Stream :=
  {| logical_name := logical_name r; tag := tag r;
     lookup_session := lookup_session r; account_id := account_id r;
     resource_id := resource_id r; mappings := m; stack := stack r |}.

Definition set_stack (title : string) (r : Stream) : Stream :=
  {| logical_name := logical_name r; tag := tag r;
     lookup_session := lookup_session r; account_id := account_id r;
     resource_id := resource_id r; mappings := mappings r;
     stack := Some title |}.

(** [get_stream_config(stream, account_id, resource_id)]; the result
    [None] is Python's [None]. *)
Definition get_stream_config (stream : Stream) (account : string)
    (resource : string) : outcome (option mapping) :=
  let client := client (lookup_session stream) "kinesis" in
  let stream_mapping :=
    [(STREAM_ARN, "StreamDescription::StreamARN");
     (STREAM_ID, "StreamDescription::StreamName");
     (STREAM_KMS_KEY_ID, "StreamDescription::KeyId")] in
  let attempt :=
    match describe_stream client resource with
    | Return stream_r => attributes_to_mapping stream_r stream_mapping
    | Raise e => Raise e
    end in
  match attempt with
  | Return stream_config => Return (Some stream_config)
  | Raise (ResourceNotFoundException _) => Return None
  | Raise (ClientError _ _) => Return None
  | Raise e => Raise e
  end.

(** Modelled from the spec: [set_new_resources], [set_use_resources] and
    [set_lookup_resources] of [compose/x_resources/helpers.py], which is
    not among the sources: the resources of one kind that carry the given
    tag, each named by its position among the declared ones. *)
Fixpoint select (c : classification) (i : nat) (l : list Stream) : list nat :=
  match l with
  | [] => []
  | r :: l' =>
      if classification_eqb (tag r) c
      then i :: select c (S i) l'
      else select c (S i) l'
  end.

Definition set_new_resources (x_resources : list Stream) (key : string)
    (flag : bool) : list nat := select New 0 x_resources.
Definition set_use_resources (x_resources : list Stream) (key : string)
    (flag : bool) : list nat := select Use 0 x_resources.
Definition set_lookup_resources (x_resources : list Stream) (key : string)
  : list nat := select Lookup 0 x_resources.

(** The settings: the resource objects of the section [RES_KEY] of the
    compose content, in the order of declaration, and the mappings
    table. *)
Record settings : Type := {
  x_resources : list Stream;
  settings_mappings : list (string * list (string * option mapping))
}.

(** Modelled from the spec (sections 4.2, 5 and 7):
    [ApiXResource.lookup_resource], which is not among the sources: the
    describe function fills the mapping of the resource; when it gives
    none, because the resource is absent or the call failed and was logged,
    the lookup is abandoned for this resource, which is left as it is, and
    the run goes on. *)
Definition lookup_resource
    (config : Stream -> string -> string -> outcome (option mapping))
    (r : Stream) : outcome Stream :=
  match config r (account_id r) (resource_id r) with
  | Return (Some m) => Return (set_mappings (Some m) r)
  | Return None => Return r
  | Raise e => Raise e
  end.

Fixpoint table_get {V} (k : string) (t : list (string * V)) : option V :=
  match t with
  | [] => None
  | (k', v) :: t' => if String.eqb k k' then Some v else table_get k t'
  end.

Fixpoint table_set {V} (k : string) (v : V) (t : list (string * V))
  : list (string * V) :=
  match t with
  | [] => [(k, v)]
  | (k', v') :: t' =>
      if String.eqb k k' then (k', v) :: t' else (k', v') :: table_set k v t'
  end.

(** The loop of [resolve_lookup] over the lookup resources. *)
Fixpoint resolve_each (todo : list nat) (s : settings) : outcome settings :=
  match todo with
  | [] => Return s
  | i :: todo' =>
      match x_resources s !! i with
      | None => Raise (AttributeError VNone "lookup_resource")
      | Some resource =>
          match lookup_resource get_stream_config resource with
          | Raise e => Raise e
          | Return resource' =>
              let xs := <[i := resource']> (x_resources s) in
              match table_get RES_KEY (settings_mappings s) with
              | None => Raise (KeyError [VStr RES_KEY])
              | Some t =>
                  let t' := table_set (logical_name resource') (mappings resource') t in
                  resolve_each todo'
                    {| x_resources := xs;
                       settings_mappings :=
                         table_set RES_KEY t' (settings_mappings s) |}
              end
          end
      end
  end.

(** [keyisset(MAPPINGS_KEY, settings.mappings)] *)
Definition mappings_set (s : settings) : bool :=
  match table_get MAPPINGS_KEY (settings_mappings s) with
  | Some (_ :: _) => true
  | _ => false
  end.

Definition resolve_lookup (lookup_resources : list nat) (s : settings)
  : outcome settings :=
  let s :=
    if mappings_set s then s
    else {| x_resources := x_resources s;
            settings_mappings := table_set MAPPINGS_KEY [] (settings_mappings s) |} in
  resolve_each lookup_resources s.

(** What [XStack.__init__] leaves behind: the three buckets, whether the
    stack is void, and the settings.  The resources come from
    [set_resources], and the template from [create_streams_template];
    neither is among the sources. *)
Record XStack : Type := {
  use_resources : list nat;
  lookup_resources : list nat;
  new_resources : list nat;
  is_void : bool;
  final_settings : settings
}.

Definition XStack_init (title : string) (s : settings) : outcome XStack :=
  let use_resources := set_use_resources (x_resources s) RES_KEY false in
  let lookup_resources := set_lookup_resources (x_resources s) RES_KEY in
  match (match lookup_resources with
         | [] => Return s
         | _ :: _ => resolve_lookup lookup_resources s
         end) with
  | Raise e => Raise e
  | Return s1 =>
      let new_resources := set_new_resources (x_resources s1) RES_KEY true in
      let void := match new_resources with [] => true | _ => false end in
      Return {| use_resources := use_resources;
                lookup_resources := lookup_resources;
                new_resources := new_resources;
                is_void := void;
                final_settings :=
                  {| x_resources := map (set_stack title) (x_resources s1);
                     settings_mappings := settings_mappings s1 |} |}
  end.
End Streams.

(** A path walker through nested dicts: one way [attributes_to_mapping]
    can be instantiated, used to run [get_stream_config] on examples. *)
Fixpoint walk (path : list string) (v : value) : option value :=
  match path with
  | [] => Some v
  | k :: path' =>
      match v with
      | VDict d =>
          match dict_get k d with
          | Some v' => walk path' v'
          | None => None
          end
      | _ => None
      end
  end.

End Kinesis.

(** ** The cluster template: [cluster/cluster_template.py] *)

Module Cluster.

(** Objects are known by the way they are reached only: the modules and
    names the file imports, and their attributes. *)
#[warnings="-register-all"]
Inductive obj : Type :=
| Global (name : string)
| Attr (o : obj) (attr : string)
| Const (s : string)
| PyList (l : list obj).

(** The names bound at module level: the [import] statements and the two
    [def]s of the file. *)
Definition module_globals : list string :=
  ["Ref"; "If"; "GetAtt"; "Stack"; "Cluster"; "formatted_outputs";
   "cluster_params"; "cluster_conditions"; "add_hosts_resources";
   "generate_spot_fleet_template"; "DEFAULT_SPOT_CONFIG";
   "build_template"; "KEYISSET"; "LOG"; "cfn_conditions";
   "ROOT_STACK_NAME"; "ROOT_STACK_NAME_T"; "upload_template"; "vpc_params";
   "add_spotfleet_stack"; "generate_cluster_template"].

(** The functions and constants of the [builtins] module. *)
Definition builtins : list string :=
  ["abs"; "aiter"; "all"; "anext"; "any"; "ascii"; "bin"; "bool";
   "breakpoint"; "bytearray"; "bytes"; "callable"; "chr"; "classmethod";
   "compile"; "complex"; "delattr"; "dict"; "dir"; "divmod"; "enumerate";
   "eval"; "exec"; "filter"; "float"; "format"; "frozenset"; "getattr";
   "globals"; "hasattr"; "hash"; "help"; "hex"; "id"; "input"; "int";
   "isinstance"; "issubclass"; "iter"; "len"; "list"; "locals"; "map";
   "max"; "memoryview"; "min"; "next"; "object"; "oct"; "open"; "ord";
   "pow"; "print"; "property"; "range"; "repr"; "reversed"; "round";
   "set"; "setattr"; "slice"; "sorted"; "staticmethod"; "str"; "sum";
   "super"; "tuple"; "type"; "vars"; "zip"; "__import__";
   "True"; "False"; "None"; "NotImplemented"; "Ellipsis"; "__debug__"].

Definition mem (n : string) (l : list string) : bool :=
  existsb (String.eqb n) l.

(** A name that is not local to the function is looked up among the
    module's globals, then among the builtins. *)
Definition load_global (n : string) : outcome obj :=
  if mem n module_globals then Return (Global n)
  else if mem n builtins then Return (Global n)
  else Raise (NameError n).

Section Template.
(** Attribute access on the imported modules, and what the function does
    once the arguments of [build_template] are evaluated: neither the
    modules nor troposphere are among the sources. *)
Variable getattr : obj -> string -> outcome obj.
Variable continue : obj -> list obj -> obj -> obj -> obj -> outcome obj.

(** [m.a] for a global name [m] *)
Definition attribute (m a : string) : outcome obj :=
  match load_global m with
  | Return o => getattr o a
  | Raise e => Raise e
  end.

(** The elements of a list display, from left to right. *)
Fixpoint eval_list (l : list (string * string)) : outcome (list obj) :=
  match l with
  | [] => Return []
  | (m, a) :: l' =>
      match attribute m a with
      | Raise e => Raise e
      | Return o =>
          match eval_list l' with
          | Raise e => Raise e
          | Return os => Return (o :: os)
          end
      end
  end.

(** The list handed to [build_template]. *)
Definition template_parameters : list (string * string) :=
  [("cluster_params", "CLUSTER_NAME");
   ("cluster_params", "USE_FLEET");
   ("cluster_params", "USE_ONDEMAND");
   ("cluster_params", "ECS_AMI_ID");
   ("cluster_params", "TARGET_CAPACITY");
   ("cluster_params", "MIN_CAPACITY");
   ("cluster_params", "MAX_CAPACITY");
   ("vpc_params", "APP_SUBNETS");
   ("vpc_params", "VPC_ID");
   ("ecs_params", "CLUSTER_NAME")].

(** [generate_cluster_template(region_azs, compose_content, **kwargs)]:
    the callee, then its arguments, then everything else. *)
Definition generate_cluster_template (region_azs compose_content kwargs : obj)
  : outcome obj :=
  match load_global "build_template" with
  | Raise e => Raise e
  | Return build_template =>
      match eval_list template_parameters with
      | Raise e => Raise e
      | Return parameters =>
          continue build_template
            [Const "Cluster template generated by ECS Compose X";
             PyList parameters]
            region_azs compose_content kwargs
      end
  end.
End Template.

End Cluster.

(** ** Validation of names and arguments: [common/__init__.py] *)

Module Common.
Import Volumes.

(** [str.isalnum] on one character. *)
Definition isalnum (c : ascii) : bool :=
  let n := nat_of_ascii c in
  let between a b := Nat.leb a n && Nat.leb n b in
  between 48 57 || between 65 90 || between 97 122
  || Nat.eqb n 170 || between 178 179 || Nat.eqb n 181 || between 185 186
  || between 188 190 || between 192 214 || between 216 246 || between 248 255.

(** [\w] of a [str] pattern: a letter, a digit or the underscore; [\W] is
    its complement. *)
Definition word (c : ascii) : bool := isalnum c || Ascii.eqb c "_".
Definition non_word (c : ascii) : bool := negb (word c).

(** The run read so far, when there is one. *)
Definition flush (cur : string) : list string :=
  match cur with
  | EmptyString => []
  | _ => [cur]
  end.

(** [pattern.findall(s)] for a pattern [[class]+], such as
    [NONALPHANUM = re.compile(r'[\W]+')]: the maximal runs of characters of
    the class, from left to right.  [cur] is the run that is being read. *)
Fixpoint findall (p : ascii -> bool) (s : string) (cur : string) : list string :=
  match s with
  | EmptyString => flush cur
  | String c s' =>
      if p c then findall p s' (cur +:+ String c EmptyString)
      else flush cur ++ findall p s' EmptyString
  end.

(** [str(x)] for a name or [None]. *)
Definition str_of (x : option string) : string :=
  match x with
  | Some s => s
  | None => "None"
  end.

(** [validate_resource_title(resource_name, resource_type)]; [findall]
    takes a string only. *)
Definition validate_resource_title (resource_name : value)
    (resource_type : option string) : outcome bool :=
  match resource_name with
  | VStr s =>
      match findall non_word s "" with
      | [] => Return true
      | _ :: _ =>
          Raise (ValueError
                   [VStr ("The resource " +:+ s +:+ " in " +:+ str_of resource_type
                          +:+ " section contains non alphanumerical characters");
                    VList (map VStr (findall non_word s ""))])
      end
  | _ => Raise (TypeError "expected string or bytes-like object")
  end.

(** The loop of [validate_input]. *)
Fixpoint validate_names (names : list value) (res_key : string) : outcome bool :=
  match names with
  | [] => Return true
  | name :: names' =>
      match validate_resource_title name (Some res_key) with
      | Raise e => Raise e
      | Return _ => validate_names names' res_key
      end
  end.

Definition validate_input (compose_content : value) (res_key : string)
  : outcome bool :=
  match getitem compose_content res_key with
  | Raise e => Raise e
  | Return names =>
      match iterate names with
      | Raise e => Raise e
      | Return l => validate_names l res_key
      end
  end.

(** [validate_kwargs(required_keys, kwargs, caller)] *)
Fixpoint validate_kwargs (required_keys : list string) (kwargs : value)
    (caller : value) : outcome bool :=
  match required_keys with
  | [] => Return true
  | required_key :: required_keys' =>
      if negb (keyisset required_key kwargs)
      then Raise (KeyError [VStr required_key; VStr "is required by module"; caller])
      else validate_kwargs required_keys' kwargs caller
  end.

End Common.

(** ** The spot fleet stack: [add_spotfleet_stack] of
    [cluster/cluster_template.py] *)

Module SpotFleet.

Section Stack.
(** The templates and the launch template of troposphere, and what
    [cluster/spot_fleet.py] and [common/templates.py] provide; none of them
    is among the sources.  [add_stack url launch_template] is
    [template.add_resource(Stack('SpotFleet', ...))] with that
    [TemplateURL] and the parameters that refer to the launch template. *)
Context {template fleet_template launch : Type}.
Variable DEFAULT_SPOT_CONFIG : value.
Variable generate_spot_fleet_template :
  value -> list (string * value) -> outcome fleet_template.
Variable to_json : fleet_template -> outcome string.
Variable upload_template : string -> value -> string -> outcome value.
Variable add_stack : value -> launch -> template -> outcome template.

(** The first lines of the function: the value of [spot_config] when the
    two tests are over. *)
Definition read_spot_config (compose_content : value) : outcome value :=
  if keyisset "configs" compose_content then
    match getitem compose_content "configs" with
    | Raise e => Raise e
    | Return configs =>
        if keyisset "spot_config" configs
        then getitem configs "spot_config"
        else Return VNone
    end
  else Return VNone.

(** [add_spotfleet_stack(template, region_azs, compose_content,
    launch_template, **kwargs)]; the result is the parent template as the
    call leaves it. *)
Definition add_spotfleet_stack (t : template) (region_azs compose_content : value)
    (launch_template : launch) (kwargs : list (string * value))
  : outcome template :=
  match read_spot_config compose_content with
  | Raise e => Raise e
  | Return spot_config =>
      let kwargs :=
        if truthy spot_config
        then dict_update kwargs [("spot_config", spot_config)]
        else dict_update kwargs [("spot_config", DEFAULT_SPOT_CONFIG)] in
      match generate_spot_fleet_template region_azs kwargs with
      | Raise e => Raise e
      | Return fleet =>
          match to_json fleet with
          | Raise e => Raise e
          | Return body =>
              match getitem (VDict kwargs) "BucketName" with
              | Raise e => Raise e
              | Return bucket =>
                  match upload_template body bucket "spot_fleet.json" with
                  | Raise e => Raise e
                  | Return fleet_template_url =>
                      if negb (truthy fleet_template_url) then Return t
                      else add_stack fleet_template_url launch_template t
                  end
              end
          end
      end
  end.
End Stack.

End SpotFleet.

(** ** Notions used to state the properties *)

Module VolumeNotions.
Import Re Volumes.

(** The state after [service.volumes.append(cfg)]. *)
Definition attached (service : nat) (cfg : value) (w : world) : world :=
  with_svcs (alter (add_volume_config cfg) service (svcs w)) w.

(** The state after [volume.services.append(service)] on the volume at
    position [i]. *)
Definition linked (i service : nat) (w : world) : world :=
  with_vols (alter (add_service service) i (vols w)) w.


(** The state after one call of [uuid4] and [volumes.append(v)]. *)
Definition declared (v : ComposeVolume) (w : world) : world :=
  {| svcs := svcs w; vols := vols w ++ [v]; urandom := urandom w;
     drawn := S (drawn w) |}.

Fixpoint all_chars (p : ascii -> bool) (s : string) : bool :=
  match s with
  | EmptyString => true
  | String c s' => p c && all_chars p s'
  end.

(** The subject ends, or goes on with a character outside the class. *)
Definition stops (p : ascii -> bool) (s : string) : bool :=
  match s with
  | EmptyString => true
  | String c _ => negb (p c)
  end.

(** The compact form of the specification,
    [(source:)?target(:ro|rw)?], written from its components. *)
Definition mode_suffix (mode : option string) : string :=
  match mode with
  | Some m => ":" +:+ m
  | None => ""
  end.

Definition compact (source : option string) (target : string)
    (mode : option string) : string :=
  match source with
  | Some s => s +:+ ":" +:+ target +:+ mode_suffix mode
  | None => target +:+ mode_suffix mode
  end.

Definition mode_ok (mode : option string) : bool :=
  match mode with
  | Some m => String.eqb m "ro" || String.eqb m "rw"
  | None => true
  end.

(** A source the pattern takes: two characters or more, none of them a
    colon, the first one no white space. *)
Definition source_ok (s : string) : bool :=
  match s with
  | String c (String _ _) => non_space c && all_chars not_colon s
  | _ => false
  end.

(** A target the pattern takes: a slash and one character or more, none of
    them a colon or a line feed. *)
Definition target_ok (t : string) : bool :=
  match t with
  | String c (String c' r) =>
      Ascii.eqb c "/" && all_chars not_colon_nl (String c' r)
  | _ => false
  end.

Definition is_ro (mode : option string) : bool :=
  match mode with
  | Some m => String.eqb m "ro"
  | None => false
  end.

(** The record that [handle_volume_str_config] builds from the components
    of the string. *)
Definition parsed_config (source target : string) (mode : option string)
  : list (string * value) :=
  [("read_only", VBool (is_ro mode)); ("target", VStr target);
   ("source", VStr source)].

(** What is left of a string from its first colon on. *)
Fixpoint from_colon (s : string) : string :=
  match s with
  | EmptyString => EmptyString
  | String c r => if not_colon c then from_colon r else s
  end.

(** The string starts with a target: a slash and a character that is
    neither a colon nor a line feed. *)
Definition starts_target (s : string) : bool :=
  match s with
  | String c (String c' _) => Ascii.eqb c "/" && not_colon_nl c'
  | _ => false
  end.

(** The string starts with a source, a colon and a target: a character
    that is no white space, one character or more up to the first colon,
    and a target behind that colon. *)
Definition starts_source (s : string) : bool :=
  match s with
  | String c (String c' r) =>
      non_space c && not_colon c'
      && match from_colon r with
         | String _ t => starts_target t
         | EmptyString => false
         end
  | _ => false
  end.

(** The strings that the pattern matches at their start. *)
Definition accepted (s : string) : bool := starts_source s || starts_target s.

(** The groups of a match, last one first. *)
Definition groups_of (source : option string) (target : string)
    (mode : option string) : groups :=
  (match mode with Some m => [("mode", m)] | None => [] end)
  ++ ("target", target)
  :: (match source with Some s => [("source", s)] | None => [] end).

(** The name of the volume that is created when the string has no source. *)
Definition generated_name (w : world) : string :=
  substring 0 6 (hex (uuid4_int (urandom w (drawn w)))).

Definition generated_volume (w : world) : ComposeVolume :=
  set_autogenerated true (ComposeVolume_init (generated_name w) (VDict [])).

(** The [ValueError] of [handle_volume_str_config]. *)
Definition invalid_syntax (config : string) : exn :=
  ValueError
    [VStr ("Volume syntax " +:+ config +:+ " is invalid. Must follow the pattern");
     VStr path_finder_pattern].

(** *** The declarations of the examples of the specification *)

Definition service_with (n : string) (entries : list value) : ComposeService :=
  {| name := n; definition := VDict [("volumes", VList entries)];
     volumes := []; tmpfses := [] |}.

Definition web_svc : ComposeService := service_with "web" [VStr "/host/path:/data:ro"].
Definition app_svc : ComposeService := service_with "app" [VStr "cache:/var/cache"].
Definition cache_vol : ComposeVolume := ComposeVolume_init "cache" (VDict []).

(** A state with one service, the given volumes, and random bytes that
    are the same at every draw. *)
Definition world_of (s : ComposeService) (l : list ComposeVolume) (r : N) : world :=
  {| svcs := [s]; vols := l; urandom := fun _ => r; drawn := 0 |}.



(** The mount spec of a tmpfs entry. *)
Definition tmpfs_def (target : value) (size : option Z) : value :=
  VDict (("ContainerPath", target)
         :: match size with Some z => [("Size", VInt z)] | None => [] end).


End VolumeNotions.

(** ** Examples for the Kinesis stack and the cluster template *)

Module KinesisNotions.
Import Kinesis.

(** The components of a path such as [StreamDescription::StreamARN]. *)
Fixpoint split_path (s : string) (cur : string) : list string :=
  match s with
  | EmptyString => [cur]
  | String c r =>
      match r with
      | String c' r' =>
          if Ascii.eqb c ":" && Ascii.eqb c' ":"
          then cur :: split_path r' ""
          else split_path r (cur +:+ String c EmptyString)
      | EmptyString => [cur +:+ String c EmptyString]
      end
  end.

(** A stand-in for [attributes_to_mapping] in the examples: the values
    found at the paths, under the keys of the paths. *)
Fixpoint extract (stream_r : value) (paths : list (string * string))
  : list (string * value) :=
  match paths with
  | [] => []
  | (key, path) :: paths' =>
      match walk (split_path path "") stream_r with
      | Some v => (key, v) :: extract stream_r paths'
      | None => extract stream_r paths'
      end
  end.

Definition example_attributes_to_mapping (stream_r : value)
    (paths : list (string * string)) : outcome (list (string * value)) :=
  Return (extract stream_r paths).

(** An account with one stream, [orders]. *)
Definition example_client : kinesis_client :=
  {| describe_stream := fun stream_name =>
       if String.eqb stream_name "orders" then
         Return (VDict [("StreamDescription",
                         VDict [("StreamName", VStr "orders");
                                ("StreamARN",
                                 VStr "arn:aws:kinesis:eu-west-1:012345678912:stream/orders");
                                ("KeyId", VStr "alias/aws/kinesis")])])
       else Raise (ResourceNotFoundException "Stream not found") |}.

Definition example_session : session := {| client := fun _ => example_client |}.

Definition example_stream (n : string) (c : classification) (id : string)
  : Stream (parameter := string) :=
  {| logical_name := n; tag := c; lookup_session := example_session;
     account_id := "012345678912"; resource_id := id;
     mappings := None; stack := None |}.

Definition example_settings : settings (parameter := string) :=
  {| x_resources :=
       [example_stream "created" New "";
        example_stream "found" Lookup "orders";
        example_stream "named" Use "";
        example_stream "other" New ""];
     settings_mappings := [("kinesis", [])] |}.

End KinesisNotions.

Module ClusterNotions.
Import Cluster.

(** Modules in which every attribute exists. *)
Definition example_getattr (o : obj) (a : string) : outcome obj :=
  Return (Attr o a).

Definition example_continue (f : obj) (args : list obj) (region_azs compose_content kwargs : obj)
  : outcome obj := Return (Const "template").

End ClusterNotions.

(** ** Notions used to state further properties *)

Module VolumeMoreNotions.
Import Re Volumes VolumeNotions.

(** A dictionary has each key once. *)
Fixpoint dict_wf (d : list (string * value)) : bool :=
  match d with
  | [] => true
  | (k, _) :: d' => negb (has_key k d') && dict_wf d'
  end.

(** The record that [handle_volume_dict_config] builds. *)
Definition long_config (d : list (string * value)) : list (string * value) :=
  dict_update [("read_only", VBool false)] d.

(** The [KeyError] of [handle_volume_dict_config]. *)
Definition missing_required_keys (d : list (string * value)) : exn :=
  KeyError [VStr "Volume configuration, when not tmpfs, requires at least";
            VList [VStr "target"; VStr "source"]; VStr "Got";
            VList (dict_keys d)].

(** A digit or a letter from [a] to [f]. *)
Definition is_lower_hex (c : ascii) : bool :=
  let n := nat_of_ascii c in
  (Nat.leb 48 n && Nat.leb n 57) || (Nat.leb 97 n && Nat.leb n 102).

(** The first three of the sixteen random bytes that the next call of
    [uuid4] draws, as a number. *)
Definition first_bytes (w : world) : N :=
  N.shiftr (N.land (urandom w (drawn w)) (N.ones 128)) 104.

(** What [map_volumes] may do to a volume: add services at the end. *)
Definition volume_kept (v v' : ComposeVolume) : Prop :=
  vol_name v' = vol_name v /\ vol_definition v' = vol_definition v
  /\ autogenerated v' = autogenerated v
  /\ vol_services v `prefix_of` vol_services v'.

(** What it may do to a service: add records and mounts at the end. *)
Definition service_kept (s s' : ComposeService) : Prop :=
  name s' = name s /\ definition s' = definition s
  /\ volumes s `prefix_of` volumes s'
  /\ tmpfses s `prefix_of` tmpfses s'.

(** What the helpers may do to the state on behalf of [service]: every
    service and every volume is kept, the other services are what they
    were, and volumes are only added at the end of the list. *)
Definition grown (service : nat) (w w' : world) : Prop :=
  Forall2 service_kept (svcs w) (svcs w')
  /\ (forall j, j <> service -> svcs w' !! j = svcs w !! j)
  /\ (exists old new, vols w' = old ++ new /\ Forall2 volume_kept (vols w) old)
  /\ urandom w' = urandom w
  /\ drawn w <= drawn w'.

(** A computation keeps the state when every run of it does. *)
Definition keeps {A} (service : nat) (m : M A) : Prop :=
  forall w, grown service w (snd (m w)).

(** What [map_volumes] may do when there is no candidate volume: record
    tmpfs mounts. *)
Definition unattached (w w' : world) : Prop :=
  vols w' = [] /\ map volumes (svcs w') = map volumes (svcs w)
  /\ drawn w' = drawn w.

(** A service whose second entry names a volume that is not declared. *)
Definition batch_svc : ComposeService :=
  service_with "batch"
    [VStr "cache:/var/cache"; VStr "data:/var/lib"; VStr "/srv:/srv:ro"].

End VolumeMoreNotions.

Module CommonNotions.
Import Common VolumeNotions.

(** The characters of a string that are in a class. *)
Fixpoint keep (p : ascii -> bool) (s : string) : string :=
  match s with
  | EmptyString => EmptyString
  | String c s' => if p c then String c (keep p s') else keep p s'
  end.

Fixpoint joined (l : list string) : string :=
  match l with
  | [] => EmptyString
  | s :: l' => s +:+ joined l'
  end.

(** A name made of letters, digits and underscores. *)
Definition is_title (v : value) : bool :=
  match v with
  | VStr s => all_chars word s
  | _ => false
  end.

(** The [ValueError] of [validate_resource_title]. *)
Definition invalid_title (s : string) (resource_type : option string)
    (found : list string) : exn :=
  ValueError
    [VStr ("The resource " +:+ s +:+ " in " +:+ str_of resource_type
           +:+ " section contains non alphanumerical characters");
     VList (map VStr found)].

(** The [KeyError] of [validate_kwargs]. *)
Definition required_by (key : string) (caller : value) : exn :=
  KeyError [VStr key; VStr "is required by module"; caller].

End CommonNotions.

Module KinesisMoreNotions.
Import Kinesis.

(** The errors that [get_stream_config] catches: [ClientError] and its
    subclasses. *)
Definition is_client_error (e : exn) : bool :=
  match e with
  | ResourceNotFoundException _ | ClientError _ _ => true
  | _ => false
  end.

(** A stream in an account whose API refuses the call. *)
Definition throttled_client : kinesis_client :=
  {| describe_stream := fun _ =>
       Raise (ClientError "LimitExceededException" "Rate exceeded") |}.

Definition throttled_stream (n : string) : Stream (parameter := string) :=
  {| logical_name := n; tag := Lookup;
     lookup_session := {| client := fun _ => throttled_client |};
     account_id := "012345678912"; resource_id := n;
     mappings := None; stack := None |}.

(** The settings of the examples, with one more lookup resource, whose
    stream the account does not have. *)
Definition lookup_settings : settings (parameter := string) :=
  {| x_resources :=
       x_resources KinesisNotions.example_settings
       ++ [KinesisNotions.example_stream "lost" Lookup "clicks"];
     settings_mappings := [("kinesis", [])] |}.

Section Recorded.
Context {parameter : Type}.
Variable RES_KEY : string.

(** The table of the kind holds, under the logical name of the resource
    at position [i], what the attribute [mappings] of this resource
    holds. *)
Definition recorded (s : settings (parameter := parameter)) (i : nat) : Prop :=
  exists (r : Stream) (t : list (string * option mapping)),
    x_resources s !! i = Some r
    /\ table_get RES_KEY (settings_mappings s) = Some t
    /\ table_get (logical_name r) t = Some (mappings r).

(** The resource at position [i] has the mapping [m]. *)
Definition mapped (s : settings (parameter := parameter)) (i : nat)
    (m : mapping) : Prop :=
  exists r : Stream, x_resources s !! i = Some r /\ mappings r = Some m.

(** No two resources bear the same logical name. *)
Definition distinct_names (s : settings (parameter := parameter)) : Prop :=
  forall (i j : nat) (r r' : Stream),
    x_resources s !! i = Some r -> x_resources s !! j = Some r' ->
    logical_name r = logical_name r' -> i = j.
End Recorded.

End KinesisMoreNotions.

Module SpotFleetNotions.
Import SpotFleet.

(** The spot configuration of a compose document: [configs.spot_config]
    when it is set, the default one otherwise. *)
Definition spot_config_of (default compose_content : value) : value :=
  match compose_content with
  | VDict d =>
      match dict_get "configs" d with
      | Some (VDict configs) =>
          match dict_get "spot_config" configs with
          | Some v => if truthy v then v else default
          | None => default
          end
      | _ => default
      end
  | _ => default
  end.

(** Stand-ins for the examples: the fleet template is its arguments, the
    upload gives a URL in the bucket it is given, or none for the bucket
    [offline]. *)
Definition example_generate (region_azs : value) (kwargs : list (string * value))
  : outcome value := Return (VDict kwargs).

Definition example_to_json (fleet : value) : outcome string := Return "{}".

Definition example_upload (body : string) (bucket : value) (file_name : string)
  : outcome value :=
  match bucket with
  | VStr b =>
      if String.eqb b "offline" then Return VNone
      else Return (VStr ("https://s3.amazonaws.com/" +:+ b +:+ "/" +:+ file_name))
  | _ => Raise (TypeError "expected string")
  end.

Definition example_add_stack (url : value) (launch_template : string)
    (t : list value) : outcome (list value) :=
  Return (t ++ [url]).

End SpotFleetNotions.

(** * Properties *)

(** ** Volume binding *)

Module VolumeProps.
Import Re Volumes VolumeNotions.

Lemma keyisset_source_str (d : list (string * value)) (src : string) :
  dict_get "source" d = Some (VStr src) ->
  keyisset "source" (VDict d) = negb (String.eqb src "").
Proof. intros H. unfold keyisset. rewrite H. reflexivity. Qed.

Lemma keyisset_absent (k : string) (d : list (string * value)) :
  dict_get k d = None -> keyisset k (VDict d) = false.
Proof. intros H. unfold keyisset. rewrite H. reflexivity. Qed.

Lemma prefix_slash_nonempty (src : string) :
  String.prefix "/" src = true -> String.eqb src "" = false.
Proof. destruct src; [discriminate | reflexivity]. Qed.

(** A host bind is recorded without a look at the volumes. *)
Lemma host_bind (service : nat) (svc : ComposeService)
    (d : list (string * value)) (src : string) (w : world) :
  svcs w !! service = Some svc ->
  dict_get "source" d = Some (VStr src) ->
  String.prefix "/" src = true ->
  match_volumes_services_config service (VDict d) w
  = (Return tt, attached service (VDict (dict_set "volume" VNone d)) w).
Proof.
  intros Hsvc Hsrc Hpre.
  unfold match_volumes_services_config, bind, lift.
  rewrite (keyisset_source_str _ _ Hsrc), (prefix_slash_nonempty _ Hpre).
  cbn [negb getitem]. rewrite Hsrc. cbn [startswith]. rewrite Hpre.
  cbn [setitem]. unfold service_volumes_append. rewrite Hsvc. reflexivity.
Qed.

(** The loop passes over the volumes that bear another name. *)
Lemma scan_volumes_no_match (service : nat) (d : list (string * value))
    (src : string) (todo : list ComposeVolume) :
  dict_get "source" d = Some (VStr src) ->
  Forall (fun v => vol_name v <> src) todo ->
  forall (i : nat) (w : world),
    scan_volumes service (VDict d) i todo w = (Return false, w).
Proof.
  intros Hsrc Hall. induction Hall as [| v todo Hv _ IH]; intros i w.
  - reflexivity.
  - cbn [scan_volumes].
    destruct (negb (keyisset "source" (VDict d)) && negb (keyisset "volume" (VVolume i))).
    + apply IH.
    + unfold bind, lift. cbn [getitem]. rewrite Hsrc. cbn [str_eq].
      destruct (String.eqb_spec (vol_name v) src) as [E | _]; [contradiction |].
      apply IH.
Qed.

(** Without a [source] key every turn of the loop ends in [continue]. *)
Lemma scan_volumes_no_source (service : nat) (d : list (string * value))
    (todo : list ComposeVolume) :
  dict_get "source" d = None ->
  forall (i : nat) (w : world),
    scan_volumes service (VDict d) i todo w = (Return false, w).
Proof.
  intros Hsrc. induction todo as [| v todo IH]; intros i w.
  - reflexivity.
  - cbn [scan_volumes]. rewrite (keyisset_absent _ _ Hsrc). cbn. apply IH.
Qed.

(** The loop stops at the first volume that bears the name. *)
Lemma scan_volumes_match (service : nat) (d : list (string * value))
    (src : string) (pre : list ComposeVolume) (v : ComposeVolume)
    (post : list ComposeVolume) :
  dict_get "source" d = Some (VStr src) ->
  String.eqb src "" = false ->
  Forall (fun u => vol_name u <> src) pre ->
  vol_name v = src ->
  forall (i : nat) (w : world) (svc : ComposeService),
    svcs w !! service = Some svc ->
    scan_volumes service (VDict d) i (pre ++ v :: post) w
    = (Return true,
       attached service (VDict (dict_set "volume" (VVolume (i + length pre)) d))
         (linked (i + length pre) service w)).
Proof.
  intros Hsrc Hne Hall Hv.
  induction Hall as [| u pre Hu _ IH]; intros i w svc Hsvc.
  - cbn [app length scan_volumes]. rewrite Nat.add_0_r.
    rewrite (keyisset_source_str _ _ Hsrc), Hne. cbn [negb andb].
    unfold bind at 1. unfold lift. cbn [getitem]. rewrite Hsrc. cbn [str_eq].
    rewrite Hv, String.eqb_refl.
    unfold bind, volume_services_append, service_volumes_append, linked, attached.
    cbn [setitem with_vols svcs]. rewrite Hsvc. reflexivity.
  - cbn [app length scan_volumes].
    rewrite (keyisset_source_str _ _ Hsrc), Hne. cbn [negb andb].
    unfold bind at 1. unfold lift. cbn [getitem]. rewrite Hsrc. cbn [str_eq].
    destruct (String.eqb_spec (vol_name u) src) as [E | _]; [contradiction |].
    rewrite (IH (S i) w svc Hsvc).
    replace (S i + length pre) with (i + S (length pre)) by lia.
    reflexivity.
Qed.

(** A list with an element that bears the name splits at the first one. *)
Lemma first_named (src : string) (l : list ComposeVolume) :
  Exists (fun v => vol_name v = src) l ->
  exists pre v post,
    l = pre ++ v :: post /\ vol_name v = src
    /\ Forall (fun u => vol_name u <> src) pre.
Proof.
  induction l as [| u l IH]; intros H.
  - inversion H.
  - destruct (String.eqb_spec (vol_name u) src) as [E | N].
    + exists [], u, l. repeat split; [assumption | constructor].
    + assert (Hl : Exists (fun v => vol_name v = src) l).
      { inversion H; subst; [contradiction | assumption]. }
      destruct (IH Hl) as (pre & v & post & -> & Hv & Hpre).
      exists (u :: pre), v, post. repeat split; [assumption |].
      constructor; assumption.
Qed.

(** The function with a source that is set and names no host path. *)
Lemma match_scans (service : nat) (d : list (string * value)) (src : string)
    (w : world) :
  dict_get "source" d = Some (VStr src) ->
  String.prefix "/" src = false ->
  match_volumes_services_config service (VDict d) w
  = match scan_volumes service (VDict d) 0 (vols w) w with
    | (Return true, w') => (Return tt, w')
    | (Return false, w') =>
        (Raise (LookupError (VStr src) (map vol_name (vols w'))), w')
    | (Raise e, w') => (Raise e, w')
    end.
Proof.
  intros Hsrc Hpre.
  unfold match_volumes_services_config.
  rewrite (keyisset_source_str _ _ Hsrc).
  assert (Hhost :
    (if negb (String.eqb src "")
     then let* s := lift (getitem (VDict d) "source") in lift (startswith s "/")
     else ret false) w = (Return false, w)).
  { destruct (String.eqb src ""); cbn [negb]; [reflexivity |].
    unfold bind, lift. cbn [getitem]. rewrite Hsrc. cbn [startswith].
    rewrite Hpre. reflexivity. }
  unfold bind at 1. rewrite Hhost.
  unfold bind at 1. unfold get_vols at 1.
  unfold bind at 1.
  destruct (scan_volumes service (VDict d) 0 (vols w) w) as [[[|] | e] w'];
    [reflexivity | | reflexivity].
  unfold bind, lift, get_vols, raise. cbn [getitem]. rewrite Hsrc. reflexivity.
Qed.

(** A source that no volume bears. *)
Lemma match_unknown (service : nat) (d : list (string * value))
    (src : string) (w : world) :
  dict_get "source" d = Some (VStr src) ->
  String.prefix "/" src = false ->
  Forall (fun v => vol_name v <> src) (vols w) ->
  match_volumes_services_config service (VDict d) w
  = (Raise (LookupError (VStr src) (map vol_name (vols w))), w).
Proof.
  intros Hsrc Hpre Hall.
  rewrite (match_scans _ _ _ _ Hsrc Hpre).
  rewrite (scan_volumes_no_match service d src (vols w) Hsrc Hall).
  reflexivity.
Qed.

(** A source that a volume bears: the first such volume is linked. *)
Lemma match_links (service : nat) (svc : ComposeService)
    (d : list (string * value)) (src : string) (pre : list ComposeVolume)
    (v : ComposeVolume) (post : list ComposeVolume) (w : world) :
  svcs w !! service = Some svc ->
  dict_get "source" d = Some (VStr src) ->
  src <> "" ->
  String.prefix "/" src = false ->
  vols w = pre ++ v :: post ->
  Forall (fun u => vol_name u <> src) pre ->
  vol_name v = src ->
  match_volumes_services_config service (VDict d) w
  = (Return tt,
     attached service (VDict (dict_set "volume" (VVolume (length pre)) d))
       (linked (length pre) service w)).
Proof.
  intros Hsvc Hsrc Hne Hpre Hsplit Hall Hv.
  rewrite (match_scans _ _ _ _ Hsrc Hpre).
  apply String.eqb_neq in Hne.
  rewrite Hsplit at 1.
  rewrite (scan_volumes_match service d src pre v post Hsrc Hne Hall Hv 0 w svc Hsvc).
  reflexivity.
Qed.

(** C7: when the source of a volume config does not start with a slash
    and is the name of none of the candidate volumes,
    [match_volumes_services_config] raises the [LookupError] that carries
    the names of all the candidates, and the services and the volumes are
    what they were. *)
Theorem unknown_source_raises_LookupError (service : nat)
    (d : list (string * value)) (src : string) (w : world) :
  dict_get "source" d = Some (VStr src) ->
  String.prefix "/" src = false ->
  Forall (fun v => vol_name v <> src) (vols w) ->
  match_volumes_services_config service (VDict d) w
  = (Raise (LookupError (VStr src) (map vol_name (vols w))), w).
Proof. apply match_unknown. Qed.

(** C9: on a volume config without a [source] key the function neither
    returns nor raises [LookupError]: every turn of the loop ends in
    [continue], and building the message of the error raises
    [KeyError('source')]. *)
Theorem missing_source_raises_KeyError (service : nat)
    (d : list (string * value)) (w : world) :
  dict_get "source" d = None ->
  match_volumes_services_config service (VDict d) w
  = (Raise (KeyError [VStr "source"]), w)
  /\ forall (i : nat) (todo : list ComposeVolume) (w' : world),
       scan_volumes service (VDict d) i todo w' = (Return false, w').
Proof.
  intros Hsrc. split.
  - unfold match_volumes_services_config.
    rewrite (keyisset_absent _ _ Hsrc).
    unfold bind at 1. unfold ret at 1.
    unfold bind at 1. unfold get_vols at 1.
    unfold bind at 1.
    rewrite (scan_volumes_no_source service d (vols w) Hsrc).
    unfold bind, lift. cbn [getitem]. rewrite Hsrc. reflexivity.
  - intros i todo w'. apply scan_volumes_no_source. assumption.
Qed.

Lemma unknown_source_raises_LookupError_witness :
  match_volumes_services_config 0
    (VDict [("source", VStr "data"); ("target", VStr "/var/lib")])
    (world_of app_svc [cache_vol] 0)
  = (Raise (LookupError (VStr "data") ["cache"]), world_of app_svc [cache_vol] 0).
Proof.
  apply (unknown_source_raises_LookupError 0
           [("source", VStr "data"); ("target", VStr "/var/lib")] "data"
           (world_of app_svc [cache_vol] 0)); [reflexivity | reflexivity |].
  apply Forall_cons; split; [discriminate | apply Forall_nil_2].
Defined.

Lemma missing_source_raises_KeyError_witness :
  match_volumes_services_config 0 (VDict [("target", VStr "/var/lib")])
    (world_of app_svc [cache_vol] 0)
  = (Raise (KeyError [VStr "source"]), world_of app_svc [cache_vol] 0).
Proof.
  apply (proj1 (missing_source_raises_KeyError 0 [("target", VStr "/var/lib")]
                  (world_of app_svc [cache_vol] 0) eq_refl)).
Defined.

(** *** Strings *)

Lemma append_nil (b : string) : "" +:+ b = b.
Proof. reflexivity. Qed.

Lemma append_cons (c : ascii) (a b : string) :
  String c a +:+ b = String c (a +:+ b).
Proof. reflexivity. Qed.

Lemma length_append (a b : string) :
  String.length (a +:+ b) = String.length a + String.length b.
Proof.
  induction a as [| c a IH]; [reflexivity |].
  rewrite append_cons. cbn [String.length]. now rewrite IH.
Qed.

Lemma substring_prefix (a b : string) :
  substring 0 (String.length a) (a +:+ b) = a.
Proof.
  induction a as [| c a IH].
  - rewrite append_nil. destruct b; reflexivity.
  - rewrite append_cons. cbn [String.length substring]. now rewrite IH.
Qed.

(** The text a group takes: what lies between the start of the group and
    the rest of the subject. *)
Lemma captured (a b : string) :
  substring 0 (String.length (a +:+ b) - String.length b) (a +:+ b) = a.
Proof.
  rewrite length_append.
  replace (String.length a + String.length b - String.length b)
    with (String.length a) by lia.
  apply substring_prefix.
Qed.

(** *** The matcher *)

(** A greedy repetition that may take all of [t] and then succeeds does
    so. *)
Lemma star_max {A} (p : ascii -> bool) (k : string -> option A)
    (rest : string) (a : A) (t : string) :
  all_chars p t = true ->
  stops p rest = true ->
  k rest = Some a ->
  star p (t +:+ rest) k = Some a.
Proof.
  intros Ht Hrest Hk. induction t as [| c t IH].
  - rewrite append_nil. destruct rest as [| c r]; cbn [star]; [assumption |].
    cbn in Hrest. apply negb_true_iff in Hrest. now rewrite Hrest.
  - cbn in Ht. apply andb_true_iff in Ht as [Hc Ht].
    rewrite append_cons. cbn [star]. rewrite Hc, (IH Ht). reflexivity.
Qed.

(** A greedy repetition fails when what follows fails after every number
    of characters. *)
Lemma star_fails {A} (p : ascii -> bool) (k : string -> option A)
    (rest : string) (t : string) :
  all_chars p t = true ->
  stops p rest = true ->
  k rest = None ->
  (forall c u, p c = true -> k (String c u) = None) ->
  star p (t +:+ rest) k = None.
Proof.
  intros Ht Hrest Hk Hin. induction t as [| c t IH].
  - rewrite append_nil. destruct rest as [| c r]; cbn [star]; [assumption |].
    cbn in Hrest. apply negb_true_iff in Hrest. now rewrite Hrest.
  - cbn in Ht. apply andb_true_iff in Ht as [Hc Ht].
    rewrite append_cons. cbn [star]. rewrite Hc, (IH Ht). apply Hin. assumption.
Qed.

Lemma not_colon_nl_not_colon (s : string) :
  all_chars not_colon_nl s = true -> all_chars not_colon s = true.
Proof.
  induction s as [| c s IH]; cbn; [reflexivity |].
  intros H. apply andb_true_iff in H as [Hc Hs].
  unfold not_colon_nl in Hc. apply andb_true_iff in Hc as [Hc _].
  unfold not_colon at 1. rewrite Hc. cbn. apply IH. assumption.
Qed.

(** What follows the target: the mode, when there is one. *)
Lemma mode_part (g : groups) (mode : option string) :
  mode_ok mode = true ->
  run (Opt (Cat (Lit ":") (Group "mode" (Alt (Cat (Lit "r") (Lit "o")) (Cat (Lit "r") (Lit "w"))))))
      (mode_suffix mode) g (fun _ g' => Some g')
  = Some ((match mode with Some m => [("mode", m)] | None => [] end) ++ g).
Proof.
  intros Hm. destruct mode as [m |]; [| reflexivity].
  cbn in Hm. apply orb_true_iff in Hm as [E | E]; apply String.eqb_eq in E; subst m; reflexivity.
Qed.

Lemma mode_suffix_stops (mode : option string) :
  stops not_colon_nl (mode_suffix mode) = true.
Proof. destruct mode; reflexivity. Qed.

(** The target and the mode, from the place where the target starts. *)
Lemma target_part (g : groups) (target : string) (mode : option string) :
  target_ok target = true -> mode_ok mode = true ->
  run (Cat (Group "target" (Cat (Lit "/") (Plus not_colon_nl)))
           (Opt (Cat (Lit ":") (Group "mode" (Alt (Cat (Lit "r") (Lit "o")) (Cat (Lit "r") (Lit "w")))))))
      (target +:+ mode_suffix mode) g (fun _ g' => Some g')
  = Some ((match mode with Some m => [("mode", m)] | None => [] end) ++ ("target", target) :: g).
Proof.
  intros Ht Hm.
  destruct target as [| c [| c' r]]; try discriminate.
  cbn in Ht. apply andb_true_iff in Ht as [Hc Ht]. apply andb_true_iff in Ht as [Hc' Hr].
  apply Ascii.eqb_eq in Hc. subst c.
  rewrite !append_cons. cbn [run]. rewrite Ascii.eqb_refl, Hc'.
  apply star_max; [assumption | apply mode_suffix_stops |].
  change (String "/" (String c' (r +:+ mode_suffix mode)))
    with (String "/" (String c' r) +:+ mode_suffix mode).
  rewrite captured. apply mode_part. assumption.
Qed.

(** A string with a source. *)
Lemma path_finder_with_source (source target : string) (mode : option string) :
  source_ok source = true -> target_ok target = true -> mode_ok mode = true ->
  re_match path_finder (compact (Some source) target mode)
  = Some (groups_of (Some source) target mode).
Proof.
  intros Hs Ht Hm. unfold re_match, path_finder, compact.
  destruct source as [| c [| c' r]]; try discriminate.
  cbn in Hs. apply andb_true_iff in Hs as [Hc Hs].
  apply andb_true_iff in Hs as [_ Hs]. apply andb_true_iff in Hs as [Hc' Hr].
  set (tail := ":" +:+ target +:+ mode_suffix mode).
  rewrite !append_cons.
  cbn [run]. rewrite Hc, Hc'.
  erewrite star_max; [reflexivity | assumption | reflexivity |].
  change (String c (String c' (r +:+ tail))) with (String c (String c' r) +:+ tail).
  rewrite captured. unfold tail. rewrite append_cons, append_nil.
  rewrite Ascii.eqb_refl.
  apply (target_part [("source", String c (String c' r))] target mode Ht Hm).
Qed.

(** A string without a source: the attempt to read one is given up. *)
Lemma path_finder_without_source (target : string) (mode : option string) :
  target_ok target = true -> mode_ok mode = true ->
  re_match path_finder (compact None target mode)
  = Some (groups_of None target mode).
Proof.
  intros Ht Hm. unfold re_match, path_finder, compact.
  cbn [run].
  match goal with
  | |- match ?attempt with _ => _ end = _ =>
      assert (Hfail : attempt = None)
  end.
  { destruct target as [| c [| c' r]]; try discriminate.
    cbn in Ht. apply andb_true_iff in Ht as [Hc Ht].
    apply andb_true_iff in Ht as [Hc' Hr].
    apply Ascii.eqb_eq in Hc. subst c.
    rewrite !append_cons.
    change (non_space "/") with true. cbv iota.
    assert (Hnc : not_colon c' = true).
    { unfold not_colon_nl in Hc'. apply andb_true_iff in Hc' as [Hc' _]. exact Hc'. }
    rewrite Hnc.
    apply star_fails.
    - apply not_colon_nl_not_colon. assumption.
    - destruct mode; reflexivity.
    - destruct mode as [m |]; [| reflexivity].
      cbn in Hm. apply orb_true_iff in Hm as [E | E];
        apply String.eqb_eq in E; subst m; reflexivity.
    - intros x u Hx. unfold not_colon in Hx. apply negb_true_iff in Hx.
      rewrite Ascii.eqb_sym, Hx. reflexivity. }
  rewrite Hfail.
  apply (target_part [] target mode Ht Hm).
Qed.

Lemma star_to_colon {A} (k : string -> option A) (s : string) :
  (forall c u, not_colon c = true -> k (String c u) = None) ->
  star not_colon s k = k (from_colon s).
Proof.
  intros Hk. induction s as [| c r IH]; [reflexivity |].
  cbn [star from_colon]. destruct (not_colon c) eqn:Hc; [| reflexivity].
  rewrite IH. destruct (k (from_colon r)) eqn:E; [reflexivity |].
  apply Hk. assumption.
Qed.

(** Where no target starts, the target group does not match. *)
Lemma target_not_here {A} (u : string) (g : groups) (r2 : regex)
    (k : string -> groups -> option A) :
  starts_target u = false ->
  run (Cat (Group "target" (Cat (Lit "/") (Plus not_colon_nl))) r2) u g k = None.
Proof.
  intros H. destruct u as [| x [| y u]]; cbn [run].
  - reflexivity.
  - destruct (Ascii.eqb "/" x); reflexivity.
  - unfold starts_target in H. rewrite Ascii.eqb_sym in H.
    destruct (Ascii.eqb "/" x); [| reflexivity].
    cbn [andb] in H. rewrite H. reflexivity.
Qed.

(** A string that is not accepted is not matched. *)
Lemma path_finder_rejects (s : string) :
  accepted s = false -> re_match path_finder s = None.
Proof.
  intros Hs. unfold accepted in Hs. apply orb_false_iff in Hs as [Hsrc Htgt].
  unfold re_match, path_finder.
  set (mode_part := Opt (Cat (Lit ":") (Group "mode" _))).
  set (tail := Cat (Group "target" (Cat (Lit "/") (Plus not_colon_nl))) mode_part).
  cbn [run].
  match goal with
  | |- match ?attempt with _ => _ end = _ =>
      assert (Hfail : attempt = None)
  end.
  { destruct s as [| c [| c' r]]; [reflexivity | now destruct (non_space c) |].
    cbn [starts_source] in Hsrc.
    destruct (non_space c); [| reflexivity].
    destruct (not_colon c'); [| reflexivity].
    cbn [andb] in Hsrc.
    rewrite star_to_colon.
    - destruct (from_colon r) as [| x t]; [reflexivity |].
      destruct (Ascii.eqb ":" x); [| reflexivity].
      apply target_not_here. assumption.
    - intros x u Hx. unfold not_colon in Hx. apply negb_true_iff in Hx.
      rewrite Ascii.eqb_sym, Hx. reflexivity. }
  rewrite Hfail. apply target_not_here. assumption.
Qed.

Lemma from_colon_head (s : string) (x : ascii) (t : string) :
  from_colon s = String x t -> x = ":"%char.
Proof.
  induction s as [| c r IH]; [discriminate |].
  cbn [from_colon]. destruct (not_colon c) eqn:Hc; [exact IH |].
  intros H. injection H as <- _.
  unfold not_colon in Hc. apply negb_false_iff in Hc.
  apply Ascii.eqb_eq. assumption.
Qed.

Lemma star_succeeds {A} (p : ascii -> bool) (k : string -> option A)
    (s : string) :
  (forall u, is_Some (k u)) -> is_Some (star p s k).
Proof.
  intros Hk. induction s as [| c r IH]; cbn [star]; [apply Hk |].
  destruct (p c); [| apply Hk].
  destruct (star p r k); [eauto | apply Hk].
Qed.

(** Where a target starts, the target and what follows it match. *)
Lemma target_here (u : string) (g : groups) :
  starts_target u = true ->
  is_Some (run (Cat (Group "target" (Cat (Lit "/") (Plus not_colon_nl)))
                    (Opt (Cat (Lit ":")
                              (Group "mode" (Alt (Cat (Lit "r") (Lit "o"))
                                                 (Cat (Lit "r") (Lit "w")))))))
             u g (fun _ g' => Some g')).
Proof.
  intros H. destruct u as [| x [| y u]]; try discriminate.
  unfold starts_target in H. apply andb_true_iff in H as [Hx Hy].
  apply Ascii.eqb_eq in Hx. subst x.
  cbn [run]. rewrite Ascii.eqb_refl, Hy.
  apply star_succeeds. intros t.
  match goal with
  | |- is_Some (match ?m with _ => _ end) => destruct m; eauto
  end.
Qed.

(** A string that is accepted is matched. *)
Lemma path_finder_accepts (s : string) :
  accepted s = true -> is_Some (re_match path_finder s).
Proof.
  intros Hs. unfold re_match, path_finder.
  set (mode_part := Opt (Cat (Lit ":") (Group "mode" _))).
  set (tail := Cat (Group "target" (Cat (Lit "/") (Plus not_colon_nl))) mode_part).
  cbn [run].
  match goal with
  | |- is_Some (match ?attempt with _ => _ end) =>
      destruct attempt as [g |] eqn:Hattempt; [eauto |]
  end.
  unfold accepted in Hs. apply orb_true_iff in Hs as [Hsrc | Htgt];
    [| apply target_here; assumption].
  exfalso.
  destruct s as [| c [| c' r]]; try discriminate.
  cbn [starts_source] in Hsrc.
  apply andb_true_iff in Hsrc as [Hcc Ht]. apply andb_true_iff in Hcc as [Hc Hc'].
  rewrite Hc, Hc' in Hattempt.
  rewrite star_to_colon in Hattempt.
  - destruct (from_colon r) as [| x t] eqn:Hr; [discriminate |].
    apply from_colon_head in Hr. subst x.
    change (Ascii.eqb ":" ":") with true in Hattempt. cbv iota in Hattempt.
    pose proof (target_here t
                  [("source",
                    substring 0
                      (String.length (String c (String c' r))
                       - String.length (String ":" t))
                      (String c (String c' r)))] Ht) as [g Hg].
    unfold tail, mode_part in Hattempt. rewrite Hg in Hattempt. discriminate.
  - intros x u Hx. unfold not_colon in Hx. apply negb_true_iff in Hx.
    rewrite Ascii.eqb_sym, Hx. reflexivity.
Qed.


Lemma target_ok_nonempty (target : string) :
  target_ok target = true -> String.eqb target "" = false.
Proof. destruct target; [discriminate | reflexivity]. Qed.

Lemma source_ok_nonempty (source : string) :
  source_ok source = true -> String.eqb source "" = false.
Proof. destruct source; [discriminate | reflexivity]. Qed.

Lemma mode_ok_cases (mode : option string) :
  mode_ok mode = true -> mode = None \/ mode = Some "ro" \/ mode = Some "rw".
Proof.
  destruct mode as [m |]; [| now left]. cbn. intros H.
  apply orb_true_iff in H as [E | E]; apply String.eqb_eq in E; subst m; auto.
Qed.

(** With a source, the record holds the three components. *)
Lemma handle_with_source (service : nat) (source target : string)
    (mode : option string) (w : world) :
  source_ok source = true -> target_ok target = true -> mode_ok mode = true ->
  handle_volume_str_config service (compact (Some source) target mode) w
  = match_volumes_services_config service
      (VDict (parsed_config source target mode)) w.
Proof.
  intros Hs Ht Hm. unfold handle_volume_str_config.
  rewrite (path_finder_with_source _ _ _ Hs Ht Hm).
  pose proof (target_ok_nonempty _ Ht) as Ht'.
  pose proof (source_ok_nonempty _ Hs) as Hs'.
  destruct (mode_ok_cases _ Hm) as [-> | [-> | ->]];
    unfold group_set, groups_of; cbn [app group String.eqb Ascii.eqb Bool.eqb];
    rewrite ?Ht', ?Hs'; reflexivity.
Qed.

(** Without a source, a volume is declared first; the record bears its
    name and refers to it. *)
Lemma handle_without_source (service : nat) (target : string)
    (mode : option string) (w : world) :
  target_ok target = true -> mode_ok mode = true ->
  handle_volume_str_config service (compact None target mode) w
  = match_volumes_services_config service
      (VDict (parsed_config (generated_name w) target mode
              ++ [("volume", VVolume (length (vols w)))]))
      (declared (generated_volume w) w).
Proof.
  intros Ht Hm. unfold handle_volume_str_config.
  rewrite (path_finder_without_source _ _ Ht Hm).
  pose proof (target_ok_nonempty _ Ht) as Ht'.
  destruct (mode_ok_cases _ Hm) as [-> | [-> | ->]];
    unfold group_set, groups_of; cbn [app group String.eqb Ascii.eqb Bool.eqb];
    rewrite ?Ht'; reflexivity.
Qed.

(** A string that is not accepted is refused, and nothing is changed. *)
Lemma handle_rejects (service : nat) (s : string) (w : world) :
  accepted s = false ->
  handle_volume_str_config service s w = (Raise (invalid_syntax s), w).
Proof.
  intros Hs. unfold handle_volume_str_config.
  rewrite (path_finder_rejects _ Hs). reflexivity.
Qed.

Lemma hex_digits_length (k : nat) : forall (n : N) (acc : string),
  String.length (hex_digits k n acc) = k + String.length acc.
Proof.
  induction k as [| k IH]; intros n acc; cbn [hex_digits]; [reflexivity |].
  rewrite IH. cbn [String.length]. lia.
Qed.

Lemma substring_length (n : nat) : forall (s : string),
  n <= String.length s -> String.length (substring 0 n s) = n.
Proof.
  induction n as [| n IH]; intros s H.
  - destruct s; reflexivity.
  - destruct s as [| c s]; cbn in H; [lia |].
    cbn [substring String.length]. rewrite IH; lia.
Qed.

(** The generated name has six characters. *)
Lemma generated_name_length (w : world) :
  String.length (generated_name w) = 6.
Proof.
  unfold generated_name, hex. apply substring_length.
  rewrite hex_digits_length. cbn. lia.
Qed.

Lemma hex_digit_not_slash (d : N) : Ascii.eqb (hex_digit d) "/" = false.
Proof.
  destruct d as [| p]; [reflexivity |].
  do 4 (try destruct p as [p | p |]); reflexivity.
Qed.

Lemma hex_digits_head (k : nat) : forall (n : N) (acc : string),
  exists d r, hex_digits (S k) n acc = String (hex_digit d) r.
Proof.
  induction k as [| k IH]; intros n acc.
  - cbn [hex_digits]. eauto.
  - change (hex_digits (S (S k)) n acc)
      with (hex_digits (S k) (N.shiftr n 4) (String (hex_digit (N.land n 15)) acc)).
    apply IH.
Qed.

(** The generated name is no host path. *)
Lemma generated_name_no_slash (w : world) :
  String.prefix "/" (generated_name w) = false.
Proof.
  unfold generated_name, hex.
  destruct (hex_digits_head 31 (uuid4_int (urandom w (drawn w))) "") as (d & r & ->).
  cbn [substring String.prefix].
  destruct (ascii_dec "/" (hex_digit d)) as [E | _]; [| reflexivity].
  pose proof (hex_digit_not_slash d) as H. rewrite <- E in H. discriminate.
Qed.

Lemma generated_name_nonempty (w : world) :
  String.eqb (generated_name w) "" = false.
Proof.
  pose proof (generated_name_length w) as H.
  destruct (generated_name w); [discriminate | reflexivity].
Qed.

(** When no volume of the list bears the generated name, the service is
    attached to the volume just declared. *)
Lemma anonymous_volume_attached (service : nat) (svc : ComposeService)
    (target : string) (mode : option string) (w : world) :
  svcs w !! service = Some svc ->
  target_ok target = true -> mode_ok mode = true ->
  Forall (fun v => vol_name v <> generated_name w) (vols w) ->
  handle_volume_str_config service (compact None target mode) w
  = (Return tt,
     attached service
       (VDict (parsed_config (generated_name w) target mode
               ++ [("volume", VVolume (length (vols w)))]))
       (linked (length (vols w)) service (declared (generated_volume w) w))).
Proof.
  intros Hsvc Ht Hm Hfresh.
  rewrite (handle_without_source _ _ _ _ Ht Hm).
  set (d := parsed_config (generated_name w) target mode
            ++ [("volume", VVolume (length (vols w)))]).
  assert (Hsrc : dict_get "source" d = Some (VStr (generated_name w))) by reflexivity.
  rewrite (match_scans _ _ _ _ Hsrc (generated_name_no_slash w)).
  change (vols (declared (generated_volume w) w))
    with (vols w ++ generated_volume w :: []).
  rewrite (scan_volumes_match service d (generated_name w) (vols w)
             (generated_volume w) [] Hsrc (generated_name_nonempty w) Hfresh
             eq_refl 0 (declared (generated_volume w) w) svc Hsvc).
  reflexivity.
Qed.

(** [map_volumes] on a service whose definition has a [volumes] section. *)
Lemma map_volumes_section (service : nat) (svc : ComposeService)
    (def : list (string * value)) (entries : list value) (w : world) :
  svcs w !! service = Some svc ->
  definition svc = VDict def ->
  dict_get "volumes" def = Some (VList entries) ->
  entries <> [] ->
  map_volumes service w = map_volume_list service entries w.
Proof.
  intros Hsvc Hdef Hget Hne.
  unfold map_volumes, bind, service_definition, lift.
  rewrite Hsvc, Hdef. unfold keyisset, main_key, getitem. rewrite Hget.
  destruct entries; [contradiction | reflexivity].
Qed.

(** A string entry when there are volumes. *)
Lemma map_volume_str (service : nat) (s : string) (w : world) :
  vols w <> [] ->
  map_volume service (VStr s) w = handle_volume_str_config service s w.
Proof.
  intros Hv. unfold map_volume, bind, lift, get_vols. cbn [tmpfs_entry is_dict keyisset].
  destruct (vols w); [contradiction | reflexivity].
Qed.

(** A string entry when there is none. *)
Lemma map_volume_str_skipped (service : nat) (s : string) (w : world) :
  vols w = [] ->
  map_volume service (VStr s) w = (Return tt, w).
Proof.
  intros Hv. unfold map_volume, bind, lift, get_vols. cbn [tmpfs_entry is_dict keyisset].
  rewrite Hv. reflexivity.
Qed.

Lemma map_volume_list_one (service : nat) (entry : value) (w : world) :
  map_volume_list service [entry] w = map_volume service entry w.
Proof.
  cbn [map_volume_list]. unfold bind, ret.
  destruct (map_volume service entry w) as [[[] | e] w']; reflexivity.
Qed.

(** C3 (amended): for every service and every volume config whose source
    starts with a slash, [match_volumes_services_config] records a host
    bind: the record gets [volume = None] and is appended to the volumes of
    the service, the volume list is neither searched nor changed and
    nothing is raised.  For the declaration
    [web: volumes: ["/host/path:/data:ro"]], [map_volumes] leaves one such
    record on the service, with target [/data], [read_only = True] (the
    mode [ro]) and [volume = None], provided the candidate volume list is
    not empty. *)
Theorem host_bind_recorded :
  (forall (service : nat) (svc : ComposeService) (d : list (string * value))
          (src : string) (w : world),
      svcs w !! service = Some svc ->
      dict_get "source" d = Some (VStr src) ->
      String.prefix "/" src = true ->
      match_volumes_services_config service (VDict d) w
      = (Return tt, attached service (VDict (dict_set "volume" VNone d)) w))
  /\ (forall (service : nat) (svc : ComposeService) (def : list (string * value))
             (w : world),
      svcs w !! service = Some svc ->
      definition svc = VDict def ->
      dict_get "volumes" def = Some (VList [VStr "/host/path:/data:ro"]) ->
      vols w <> [] ->
      map_volumes service w
      = (Return tt,
         attached service
           (VDict [("read_only", VBool true); ("target", VStr "/data");
                   ("source", VStr "/host/path"); ("volume", VNone)]) w)).
Proof.
  split.
  - intros service svc d src w. apply host_bind.
  - intros service svc def w Hsvc Hdef Hget Hvols.
    rewrite (map_volumes_section _ _ _ _ _ Hsvc Hdef Hget) by discriminate.
    rewrite map_volume_list_one, (map_volume_str _ _ _ Hvols).
    change "/host/path:/data:ro" with (compact (Some "/host/path") "/data" (Some "ro")).
    rewrite handle_with_source by reflexivity.
    rewrite (host_bind service svc _ "/host/path" w Hsvc) by reflexivity.
    reflexivity.
Qed.

Lemma host_bind_recorded_witness :
  match_volumes_services_config 0
    (VDict [("source", VStr "/host/path"); ("target", VStr "/data")])
    (world_of web_svc [] 0)
  = (Return tt,
     attached 0 (VDict [("source", VStr "/host/path"); ("target", VStr "/data");
                        ("volume", VNone)]) (world_of web_svc [] 0))
  /\ map_volumes 0 (world_of web_svc [cache_vol] 0)
     = (Return tt,
        attached 0
          (VDict [("read_only", VBool true); ("target", VStr "/data");
                  ("source", VStr "/host/path"); ("volume", VNone)])
          (world_of web_svc [cache_vol] 0)).
Proof.
  split.
  - apply (proj1 host_bind_recorded 0 web_svc
             [("source", VStr "/host/path"); ("target", VStr "/data")]
             "/host/path" (world_of web_svc [] 0));
      reflexivity.
  - apply (proj2 host_bind_recorded 0 web_svc
             [("volumes", VList [VStr "/host/path:/data:ro"])]
             (world_of web_svc [cache_vol] 0));
      [reflexivity | reflexivity | reflexivity | discriminate].
Defined.

Lemma host_bind_skipped_without_volumes :
  map_volumes 0 (world_of web_svc [] 0) = (Return tt, world_of web_svc [] 0)
  /\ volumes web_svc = [].
Proof. split; reflexivity. Qed.

Lemma lookup_split (pre : list ComposeVolume) (v : ComposeVolume)
    (post : list ComposeVolume) :
  (pre ++ v :: post) !! length pre = Some v.
Proof. rewrite lookup_app_r by lia. rewrite Nat.sub_diag. reflexivity. Qed.

Lemma before_first (src : string) (pre : list ComposeVolume)
    (v : ComposeVolume) (post : list ComposeVolume) (j : nat) (u : ComposeVolume) :
  Forall (fun x => vol_name x <> src) pre ->
  j < length pre ->
  (pre ++ v :: post) !! j = Some u ->
  vol_name u <> src.
Proof.
  intros Hall Hj Hu. rewrite lookup_app_l in Hu by assumption.
  rewrite Forall_forall in Hall. apply Hall.
  apply list_elem_of_lookup. eauto.
Qed.

(** C4 (amended): for every service and every volume config whose source
    is not empty, does not start with a slash and is the name of a
    candidate volume, [match_volumes_services_config] links the service and
    the first volume of that name in both directions: the service is
    appended to the services of the volume, and the record, with its
    [volume] field set to that volume, is appended to the volumes of the
    service.  With [volumes: {cache: {}}] and
    [app: volumes: ["cache:/var/cache"]], [map_volumes] links [app] and the
    volume [cache] so. *)
Theorem named_volume_linked :
  (forall (service : nat) (svc : ComposeService) (d : list (string * value))
          (src : string) (w : world),
      svcs w !! service = Some svc ->
      dict_get "source" d = Some (VStr src) ->
      src <> "" ->
      String.prefix "/" src = false ->
      Exists (fun v => vol_name v = src) (vols w) ->
      exists (i : nat) (v : ComposeVolume),
        let record := VDict (dict_set "volume" (VVolume i) d) in
        let w' := attached service record (linked i service w) in
        vols w !! i = Some v /\ vol_name v = src
        /\ (forall j u, j < i -> vols w !! j = Some u -> vol_name u <> src)
        /\ match_volumes_services_config service (VDict d) w = (Return tt, w')
        /\ vols w' !! i = Some (add_service service v)
        /\ svcs w' !! service = Some (add_volume_config record svc))
  /\ (forall (service : nat) (svc : ComposeService) (def : list (string * value))
             (w : world),
      svcs w !! service = Some svc ->
      definition svc = VDict def ->
      dict_get "volumes" def = Some (VList [VStr "cache:/var/cache"]) ->
      vols w = [ComposeVolume_init "cache" (VDict [])] ->
      map_volumes service w
      = (Return tt,
         attached service
           (VDict [("read_only", VBool false); ("target", VStr "/var/cache");
                   ("source", VStr "cache"); ("volume", VVolume 0)])
           (linked 0 service w))).
Proof.
  split.
  - intros service svc d src w Hsvc Hsrc Hne Hpre Hex.
    destruct (first_named src (vols w) Hex) as (pre & v & post & Hsplit & Hv & Hall).
    assert (Hi : vols w !! length pre = Some v).
    { rewrite Hsplit. apply lookup_split. }
    exists (length pre), v. cbv zeta. repeat split.
    + assumption.
    + assumption.
    + intros j u Hj Hu. rewrite Hsplit in Hu.
      exact (before_first src pre v post j u Hall Hj Hu).
    + exact (match_links service svc d src pre v post w
               Hsvc Hsrc Hne Hpre Hsplit Hall Hv).
    + unfold attached, linked. cbn [vols with_svcs with_vols].
      rewrite list_lookup_alter_eq, Hi. reflexivity.
    + unfold attached, linked. cbn [svcs with_svcs with_vols].
      rewrite list_lookup_alter_eq, Hsvc. reflexivity.
  - intros service svc def w Hsvc Hdef Hget Hvols.
    rewrite (map_volumes_section _ _ _ _ _ Hsvc Hdef Hget) by discriminate.
    rewrite map_volume_list_one, map_volume_str by (rewrite Hvols; discriminate).
    change "cache:/var/cache" with (compact (Some "cache") "/var/cache" None).
    rewrite handle_with_source by reflexivity.
    set (d := parsed_config "cache" "/var/cache" None).
    assert (Hsrc : dict_get "source" d = Some (VStr "cache")) by reflexivity.
    rewrite (match_scans _ _ _ _ Hsrc eq_refl).
    rewrite Hvols at 1.
    pose proof (scan_volumes_match service d "cache" []
                  (ComposeVolume_init "cache" (VDict [])) []
                  Hsrc eq_refl (Forall_nil_2 _) eq_refl 0 w svc Hsvc) as Hscan.
    rewrite app_nil_l in Hscan. rewrite Hscan. reflexivity.
Qed.

Lemma named_volume_linked_witness :
  (exists (i : nat) (v : ComposeVolume),
      vols (world_of app_svc [cache_vol] 0) !! i = Some v /\ vol_name v = "cache"
      /\ match_volumes_services_config 0
           (VDict [("source", VStr "cache"); ("target", VStr "/var/cache")])
           (world_of app_svc [cache_vol] 0)
         = (Return tt,
            attached 0
              (VDict (dict_set "volume" (VVolume i)
                        [("source", VStr "cache"); ("target", VStr "/var/cache")]))
              (linked i 0 (world_of app_svc [cache_vol] 0))))
  /\ map_volumes 0 (world_of app_svc [cache_vol] 0)
     = (Return tt,
        attached 0
          (VDict [("read_only", VBool false); ("target", VStr "/var/cache");
                  ("source", VStr "cache"); ("volume", VVolume 0)])
          (linked 0 0 (world_of app_svc [cache_vol] 0))).
Proof.
  split.
  - assert (Hne : "cache" <> "") by discriminate.
    assert (Hex : Exists (fun v => vol_name v = "cache")
                    (vols (world_of app_svc [cache_vol] 0))).
    { apply Exists_cons_hd. reflexivity. }
    destruct (proj1 named_volume_linked 0 app_svc
                [("source", VStr "cache"); ("target", VStr "/var/cache")]
                "cache" (world_of app_svc [cache_vol] 0)
                eq_refl eq_refl Hne eq_refl Hex)
      as (i & v & Hi & Hv & _ & Hm & _).
    exists i, v. repeat split; assumption.
  - apply (proj2 named_volume_linked 0 app_svc
             [("volumes", VList [VStr "cache:/var/cache"])]
             (world_of app_svc [cache_vol] 0)); reflexivity.
Defined.

(** The link in both directions, read off the final state. *)
Example cache_linked_both_ways :
  let w := snd (map_volumes 0 (world_of app_svc [cache_vol] 0)) in
  (vol_services <$> vols w !! 0) = Some [0]
  /\ (volumes <$> svcs w !! 0)
     = Some [VDict [("read_only", VBool false); ("target", VStr "/var/cache");
                    ("source", VStr "cache"); ("volume", VVolume 0)]].
Proof. split; reflexivity. Qed.

Lemma empty_source_not_linked :
  match_volumes_services_config 0
    (VDict [("source", VStr ""); ("target", VStr "/data")])
    (world_of app_svc [ComposeVolume_init "" (VDict [])] 0)
  = (Raise (LookupError (VStr "") [""]),
     world_of app_svc [ComposeVolume_init "" (VDict [])] 0).
Proof. reflexivity. Qed.

(** C1 (amended): for a compact string [source:target] or
    [source:target:mode] whose source has two characters or more, no colon
    and no white space in front, whose target is a slash followed by one
    character or more other than a colon and a line feed, and whose mode is
    [ro] or [rw], [handle_volume_str_config] builds the record with exactly
    that source and target and with [read_only] true if and only if the
    mode is [ro] (the mode itself is not kept), and hands it to
    [match_volumes_services_config]: the call succeeds with a host bind
    when the source starts with a slash, succeeds with a link to the first
    volume of that name when there is one, and raises [LookupError]
    otherwise.  Without a source the record bears the name of a volume
    declared on the spot.  A string that starts neither with a target, nor
    with a character that is no white space, one or more characters other
    than a colon, a colon and a target (so every string without a slash),
    is refused with a [ValueError], and nothing is changed. *)
Theorem compact_string_parsed :
  (forall (service : nat) (svc : ComposeService) (source target : string)
          (mode : option string) (w : world),
      svcs w !! service = Some svc ->
      source_ok source = true -> target_ok target = true ->
      mode_ok mode = true ->
      let record :=
        [("read_only", VBool (is_ro mode)); ("target", VStr target);
         ("source", VStr source)] in
      let r :=
        handle_volume_str_config service (compact (Some source) target mode) w in
      r = match_volumes_services_config service (VDict record) w
      /\ (String.prefix "/" source = true ->
          r = (Return tt,
               attached service (VDict (record ++ [("volume", VNone)])) w))
      /\ (String.prefix "/" source = false ->
          forall (pre : list ComposeVolume) (v : ComposeVolume)
                 (post : list ComposeVolume),
            vols w = pre ++ v :: post ->
            Forall (fun u => vol_name u <> source) pre ->
            vol_name v = source ->
            r = (Return tt,
                 attached service
                   (VDict (record ++ [("volume", VVolume (length pre))]))
                   (linked (length pre) service w)))
      /\ (String.prefix "/" source = false ->
          Forall (fun u => vol_name u <> source) (vols w) ->
          r = (Raise (LookupError (VStr source) (map vol_name (vols w))), w)))
  /\ (forall (service : nat) (target : string) (mode : option string)
             (w : world),
      target_ok target = true -> mode_ok mode = true ->
      handle_volume_str_config service (compact None target mode) w
      = match_volumes_services_config service
          (VDict [("read_only", VBool (is_ro mode)); ("target", VStr target);
                  ("source", VStr (generated_name w));
                  ("volume", VVolume (length (vols w)))])
          (declared (generated_volume w) w))
  /\ (forall (service : nat) (s : string) (w : world),
      accepted s = false ->
      handle_volume_str_config service s w = (Raise (invalid_syntax s), w)).
Proof.
  split; [| split].
  - intros service svc source target mode w Hsvc Hs Ht Hm record r.
    assert (Hr : r = match_volumes_services_config service (VDict record) w).
    { apply handle_with_source; assumption. }
    assert (Hsrc : dict_get "source" record = Some (VStr source)) by reflexivity.
    assert (Hne : source <> "").
    { apply String.eqb_neq. apply source_ok_nonempty. assumption. }
    repeat split.
    + exact Hr.
    + intros Hpre. rewrite Hr.
      exact (host_bind service svc record source w Hsvc Hsrc Hpre).
    + intros Hpre pre v post Hsplit Hall Hv. rewrite Hr.
      exact (match_links service svc record source pre v post w
               Hsvc Hsrc Hne Hpre Hsplit Hall Hv).
    + intros Hpre Hall. rewrite Hr.
      exact (match_unknown service record source w Hsrc Hpre Hall).
  - intros. apply handle_without_source; assumption.
  - intros. apply handle_rejects; assumption.
Qed.

Lemma compact_string_parsed_witness :
  handle_volume_str_config 0 "/host/path:/data:ro" (world_of web_svc [] 0)
  = (Return tt,
     attached 0
       (VDict [("read_only", VBool true); ("target", VStr "/data");
               ("source", VStr "/host/path"); ("volume", VNone)])
       (world_of web_svc [] 0))
  /\ handle_volume_str_config 0 "/data:rw" (world_of web_svc [] 0)
     = match_volumes_services_config 0
         (VDict [("read_only", VBool false); ("target", VStr "/data");
                 ("source", VStr "000000"); ("volume", VVolume 0)])
         (declared (generated_volume (world_of web_svc [] 0)) (world_of web_svc [] 0))
  /\ handle_volume_str_config 0 "data" (world_of web_svc [] 0)
     = (Raise (invalid_syntax "data"), world_of web_svc [] 0).
Proof.
  split; [| split].
  - apply (proj1 compact_string_parsed 0 web_svc "/host/path" "/data" (Some "ro")
             (world_of web_svc [] 0)); reflexivity.
  - apply (proj1 (proj2 compact_string_parsed) 0 "/data" (Some "rw")
             (world_of web_svc [] 0)); reflexivity.
  - apply (proj2 (proj2 compact_string_parsed) 0 "data" (world_of web_svc [] 0));
      reflexivity.
Defined.

Lemma compact_string_not_always_parsed :
  handle_volume_str_config 0 (compact (Some "a") "/b" (Some "ro"))
      (world_of app_svc [cache_vol] 0)
    = (Raise (invalid_syntax "a:/b:ro"), world_of app_svc [cache_vol] 0)
  /\ handle_volume_str_config 0 (compact (Some "data") "/var/lib" (Some "ro"))
       (world_of app_svc [cache_vol] 0)
     = (Raise (LookupError (VStr "data") ["cache"]), world_of app_svc [cache_vol] 0)
  /\ fst (handle_volume_str_config 0 "/host:/data:zz" (world_of app_svc [cache_vol] 0))
     = Return tt
  /\ (volumes <$> svcs (snd (handle_volume_str_config 0 "/host/path:/data:ro"
                               (world_of app_svc [cache_vol] 0))) !! 0)
     = Some [VDict [("read_only", VBool true); ("target", VStr "/data");
                    ("source", VStr "/host/path"); ("volume", VNone)]].
Proof. repeat split; vm_compute; reflexivity. Qed.

(** C5: a name clash, on which the property fails.  The volume list holds
    a volume named [cafe01] and the random bytes of [uuid4] start with
    [ca fe 01]: the string [/data] declares a second volume [cafe01],
    marked autogenerated, but the service is attached to the first one,
    and the record refers to the first one. *)
Example generated_name_clash :
  let w := world_of web_svc [ComposeVolume_init "cafe01" (VDict [])]
             (N.shiftl 0xcafe01 104) in
  let r := handle_volume_str_config 0 "/data" w in
  generated_name w = "cafe01"
  /\ fst r = Return tt
  /\ vols (snd r)
     = [ {| vol_name := "cafe01"; vol_definition := VDict [];
            vol_services := [0]; autogenerated := false |};
         {| vol_name := "cafe01"; vol_definition := VDict [];
            vol_services := []; autogenerated := true |} ]
  /\ (volumes <$> svcs (snd r) !! 0)
     = Some [VDict [("read_only", VBool false); ("target", VStr "/data");
                    ("source", VStr "cafe01"); ("volume", VVolume 0)]].
Proof. repeat split; vm_compute; reflexivity. Qed.


Lemma key_is_total (k s : string) (config : value) :
  exists b, key_is k s config = Return b.
Proof.
  unfold key_is, keyisset, getitem. destruct config; eauto.
  destruct (dict_get k d) as [v |]; [destruct (truthy v) |]; eauto.
Qed.

(** The test of [map_volumes] and [is_tmpfs] agree on a dict. *)
Lemma tmpfs_entry_is_tmpfs (d : list (string * value)) :
  tmpfs_entry (VDict d) = is_tmpfs (VDict d).
Proof.
  unfold tmpfs_entry, is_tmpfs. cbn [is_dict].
  destruct (key_is_total "type" "tmpfs" (VDict d)) as [b ->].
  destruct b, (keyisset "tmpfs" (VDict d)); reflexivity.
Qed.



(** [int] on strings: blanks and no-break spaces around the number are
    skipped, the separators U+001C to U+001F are not, and the message
    shows the [repr] of the string. *)
Lemma int_examples :
  int (VStr (" +1_024" +:+ String "160" "")) = Return 1024%Z
  /\ int (VStr ("1024" +:+ String "031" ""))
     = Raise (ValueError
                [VStr "invalid literal for int() with base 10: '1024\x1f'"])
  /\ int (VStr "64m")
     = Raise (ValueError [VStr "invalid literal for int() with base 10: '64m'"])
  /\ int (VStr "it's")
     = Raise (ValueError
                [VStr ("invalid literal for int() with base 10: "
                       +:+ String double_quote ("it's" +:+ String double_quote ""))])
  /\ int (VList [VInt 1])
     = Raise (TypeError
                "int() argument must be a string, a bytes-like object or a real number, not 'list'").
Proof. repeat split. Qed.






End VolumeProps.

(** ** Kinesis streams *)

Module KinesisProps.
Import Kinesis KinesisNotions.

Section StreamProps.
Context {parameter : Type}.
Variables STREAM_ARN STREAM_ID STREAM_KMS_KEY_ID : parameter.
Variables RES_KEY MAPPINGS_KEY : string.
Variable attributes_to_mapping :
  value -> list (parameter * string) -> outcome (mapping (parameter := parameter)).

Local Abbreviation get_stream_config :=
  (get_stream_config STREAM_ARN STREAM_ID STREAM_KMS_KEY_ID attributes_to_mapping).
Local Abbreviation XStack_init :=
  (XStack_init STREAM_ARN STREAM_ID STREAM_KMS_KEY_ID RES_KEY MAPPINGS_KEY
     attributes_to_mapping).
Local Abbreviation resolve_each :=
  (resolve_each STREAM_ARN STREAM_ID STREAM_KMS_KEY_ID RES_KEY
     attributes_to_mapping).

(** C8: when the describe call reports that the stream does not exist
  ([ResourceNotFoundException]), [get_stream_config] returns [None] and
  raises nothing; when the call succeeds, it returns the mapping that
  [attributes_to_mapping] extracts at the paths
  [StreamDescription::StreamARN], [StreamDescription::StreamName] and
  [StreamDescription::KeyId]. *)
Theorem get_stream_config_outcome (stream : Stream) (account resource : string) :
  (forall msg : string,
      describe_stream (client (lookup_session stream) "kinesis") resource
      = Raise (ResourceNotFoundException msg) ->
      get_stream_config stream account resource = Return None)
  /\ (forall (stream_r : value) (m : mapping),
      describe_stream (client (lookup_session stream) "kinesis") resource
      = Return stream_r ->
      attributes_to_mapping stream_r
        [(STREAM_ARN, "StreamDescription::StreamARN");
         (STREAM_ID, "StreamDescription::StreamName");
         (STREAM_KMS_KEY_ID, "StreamDescription::KeyId")] = Return m ->
      get_stream_config stream account resource = Return (Some m)).
Proof.
  split.
  - intros msg H. unfold Kinesis.get_stream_config. rewrite H. reflexivity.
  - intros stream_r m H Hm. unfold Kinesis.get_stream_config.
    rewrite H, Hm. reflexivity.
Qed.

(** *** The three buckets *)

Lemma select_tags (c : classification) (l l' : list (Stream (parameter := parameter))) :
  map tag l = map tag l' ->
  forall i, select c i l = select c i l'.
Proof.
  revert l'. induction l as [| r l IH]; intros [| r' l'] H i;
    try discriminate; [reflexivity |].
  cbn in H. injection H as Hr Hl. cbn [select]. rewrite Hr, (IH l' Hl).
  reflexivity.
Qed.

(** Each position falls in one bucket. *)
Lemma select_partition (l : list (Stream (parameter := parameter))) :
  forall i,
    Permutation (select New i l ++ select Use i l ++ select Lookup i l)
      (seq i (length l)).
Proof.
  induction l as [| r l IH]; intros i; [constructor |].
  cbn [select length seq]. specialize (IH (S i)).
  destruct (tag r); cbn [classification_eqb].
  - change (Permutation
              (i :: (select New (S i) l ++ select Use (S i) l
                     ++ select Lookup (S i) l))
              (i :: seq (S i) (length l))).
    constructor. exact IH.
  - change (Permutation
              (select New (S i) l
               ++ i :: (select Use (S i) l ++ select Lookup (S i) l))
              (i :: seq (S i) (length l))).
    symmetry. apply Permutation_cons_app. symmetry. exact IH.
  - rewrite app_assoc. symmetry. apply Permutation_cons_app.
    rewrite <- app_assoc. symmetry. exact IH.
Qed.

Lemma lookup_resource_tag (config : Stream -> string -> string -> outcome (option mapping))
    (r r' : Stream (parameter := parameter)) :
  lookup_resource config r = Return r' -> tag r' = tag r.
Proof.
  unfold lookup_resource.
  destruct (config r (account_id r) (resource_id r)) as [[m |] | e];
    intros H; try discriminate; injection H as <-; reflexivity.
Qed.

Lemma insert_same_tag (l : list (Stream (parameter := parameter))) :
  forall (i : nat) (r r' : Stream),
    l !! i = Some r -> tag r' = tag r ->
    map tag (<[i := r']> l) = map tag l.
Proof.
  induction l as [| x l IH]; intros [| i] r r' Hi Ht; try discriminate.
  - cbn in Hi. injection Hi as ->. cbn. now rewrite Ht.
  - cbn in Hi. cbn. f_equal. exact (IH i r r' Hi Ht).
Qed.

(** Looking resources up leaves their tags alone. *)
Lemma resolve_each_tags (todo : list nat) :
  forall s s1 : settings,
    resolve_each todo s = Return s1 ->
    map tag (x_resources s1) = map tag (x_resources s).
Proof.
  induction todo as [| i todo IH]; intros s s1 H.
  - cbn in H. injection H as <-. reflexivity.
  - cbn [Kinesis.resolve_each] in H.
    destruct (x_resources s !! i) as [r |] eqn:Hi; [| discriminate].
    destruct (lookup_resource _ r) as [r' | e] eqn:Hr; [| discriminate].
    destruct (table_get RES_KEY (settings_mappings s)) as [t |]; [| discriminate].
    apply IH in H. rewrite H. cbn [x_resources].
    apply (insert_same_tag _ i r r' Hi). exact (lookup_resource_tag _ _ _ Hr).
Qed.

(** C2: the buckets that [XStack.__init__] gets from [set_new_resources],
  [set_use_resources] and [set_lookup_resources] are a partition of the
  declared resources of the kind: together they hold every resource once,
  and no resource is in two of them. *)
Theorem buckets_partition (title : string) (s : settings) (x : XStack) :
  XStack_init title s = Return x ->
  Permutation (new_resources x ++ use_resources x ++ lookup_resources x)
    (seq 0 (length (x_resources s)))
  /\ (forall i, i ∈ new_resources x ->
                 (i ∉ use_resources x) /\ (i ∉ lookup_resources x))
  /\ (forall i, i ∈ use_resources x -> (i ∉ lookup_resources x))
  /\ new_resources x = set_new_resources (x_resources s) RES_KEY true
  /\ use_resources x = set_use_resources (x_resources s) RES_KEY false
  /\ lookup_resources x = set_lookup_resources (x_resources s) RES_KEY.
Proof.
  intros H. unfold Kinesis.XStack_init in H.
  match type of H with
  | match ?looked with _ => _ end = _ => destruct looked as [s1 | e] eqn:Hs1
  end; [| discriminate].
  assert (Htags : map tag (x_resources s1) = map tag (x_resources s)).
  { destruct (set_lookup_resources (x_resources s) RES_KEY).
    - injection Hs1 as <-. reflexivity.
    - unfold resolve_lookup in Hs1. apply resolve_each_tags in Hs1.
      rewrite Hs1. destruct (mappings_set MAPPINGS_KEY s); reflexivity. }
  injection H as <-. cbn [new_resources use_resources lookup_resources].
  assert (Hnew : set_new_resources (x_resources s1) RES_KEY true
                 = set_new_resources (x_resources s) RES_KEY true).
  { apply select_tags. exact Htags. }
  rewrite Hnew.
  pose proof (select_partition (x_resources s) 0) as Hperm.
  assert (Hnodup : NoDup (set_new_resources (x_resources s) RES_KEY true
                          ++ set_use_resources (x_resources s) RES_KEY false
                          ++ set_lookup_resources (x_resources s) RES_KEY)).
  { unfold set_new_resources, set_use_resources, set_lookup_resources.
    rewrite Hperm. apply NoDup_seq. }
  apply NoDup_app in Hnodup as (_ & Hnew_out & Hrest).
  apply NoDup_app in Hrest as (_ & Huse_out & _).
  repeat split; try reflexivity.
  - exact Hperm.
  - intros Hin. apply (Hnew_out i H). apply elem_of_app. now left.
  - intros Hin. apply (Hnew_out i H). apply elem_of_app. now right.
  - intros i Hi. exact (Huse_out i Hi).
Qed.
End StreamProps.

Lemma get_stream_config_outcome_witness :
  get_stream_config "StreamArn" "StreamName" "KmsKeyId"
    example_attributes_to_mapping (example_stream "lost" Lookup "clicks")
    "012345678912" "clicks" = Return None
  /\ get_stream_config "StreamArn" "StreamName" "KmsKeyId"
       example_attributes_to_mapping (example_stream "found" Lookup "orders")
       "012345678912" "orders"
     = Return (Some [("StreamArn",
                      VStr "arn:aws:kinesis:eu-west-1:012345678912:stream/orders");
                     ("StreamName", VStr "orders");
                     ("KmsKeyId", VStr "alias/aws/kinesis")]).
Proof.
  split.
  - apply (proj1 (get_stream_config_outcome "StreamArn" "StreamName" "KmsKeyId"
                    example_attributes_to_mapping
                    (example_stream "lost" Lookup "clicks")
                    "012345678912" "clicks") "Stream not found").
    reflexivity.
  - eapply (proj2 (get_stream_config_outcome "StreamArn" "StreamName" "KmsKeyId"
                     example_attributes_to_mapping
                     (example_stream "found" Lookup "orders")
                     "012345678912" "orders")); reflexivity.
Defined.



Lemma buckets_partition_witness :
  exists x : XStack,
    XStack_init "StreamArn" "StreamName" "KmsKeyId" "kinesis" "kinesis"
      example_attributes_to_mapping "kinesis" example_settings = Return x
    /\ new_resources x = [0; 3] /\ use_resources x = [2]
    /\ lookup_resources x = [1]
    /\ Permutation (new_resources x ++ use_resources x ++ lookup_resources x)
         (seq 0 4).
Proof.
  eexists. split; [reflexivity |].
  repeat split.
  exact (proj1 (buckets_partition "StreamArn" "StreamName" "KmsKeyId"
                  "kinesis" "kinesis" example_attributes_to_mapping
                  "kinesis" example_settings _ eq_refl)).
Defined.
End KinesisProps.

(** ** The cluster template *)

Module ClusterProps.
Import Cluster ClusterNotions.

Section TemplateProps.
Variable getattr : obj -> string -> outcome obj.
Variable continue : obj -> list obj -> obj -> obj -> obj -> outcome obj.

Lemma eval_list_app (pre post : list (string * string)) :
  eval_list getattr (pre ++ post)
  = match eval_list getattr pre with
    | Raise e => Raise e
    | Return os =>
        match eval_list getattr post with
        | Raise e => Raise e
        | Return os' => Return (os ++ os')
        end
    end.
Proof.
  induction pre as [| [m a] pre IH].
  - cbn [app eval_list]. destruct (eval_list getattr post); reflexivity.
  - change (((m, a) :: pre) ++ post) with ((m, a) :: (pre ++ post)).
    cbn [eval_list]. destruct (attribute getattr m a); [| reflexivity].
    rewrite IH. destruct (eval_list getattr pre); [| reflexivity].
    destruct (eval_list getattr post); reflexivity.
Qed.

(** The list ends with an attribute of a name that nothing binds. *)
Lemma unbound_parameter :
  eval_list getattr [("ecs_params", "CLUSTER_NAME")]
  = Raise (NameError "ecs_params").
Proof. reflexivity. Qed.

Lemma eval_list_bound (l : list (string * string)) :
  Forall (fun ma => exists o, attribute getattr (fst ma) (snd ma) = Return o) l ->
  exists os, eval_list getattr l = Return os.
Proof.
  induction 1 as [| [m a] l [o Ho] _ [os IH]]; [now exists [] |].
  cbn [eval_list]. cbn [fst snd] in Ho. rewrite Ho, IH. eauto.
Qed.

(** C10: [generate_cluster_template] returns no template, whatever its
  arguments: the last element of the list handed to [build_template] is
  an attribute of [ecs_params], a name that the module never binds, and
  evaluating it raises [NameError] as soon as the attributes before it
  are found. *)
Theorem generate_cluster_template_raises (region_azs compose_content kwargs : obj) :
  (forall template : obj,
      generate_cluster_template getattr continue region_azs compose_content kwargs
      <> Return template)
  /\ (Forall (fun ma => exists o, getattr (Global (fst ma)) (snd ma) = Return o)
        (removelast template_parameters) ->
      generate_cluster_template getattr continue region_azs compose_content kwargs
      = Raise (NameError "ecs_params")).
Proof.
  unfold generate_cluster_template.
  change (load_global "build_template") with (Return (Global "build_template")).
  change template_parameters
    with (removelast template_parameters ++ [("ecs_params", "CLUSTER_NAME")]).
  rewrite eval_list_app, unbound_parameter. split.
  - intros template. destruct (eval_list getattr _); discriminate.
  - intros Hbound.
    destruct (eval_list_bound (removelast template_parameters)) as [os ->];
      [| reflexivity].
    cbn [removelast template_parameters].
    repeat (apply Forall_cons; split;
            [apply Forall_inv in Hbound; exact Hbound
            | apply Forall_inv_tail in Hbound]).
    apply Forall_nil_2.
Qed.
End TemplateProps.

Lemma generate_cluster_template_raises_witness :
  generate_cluster_template example_getattr example_continue
    (Const "eu-west-1a") (Const "compose") (Const "kwargs")
  = Raise (NameError "ecs_params").
Proof.
  apply (proj2 (generate_cluster_template_raises example_getattr example_continue
                  (Const "eu-west-1a") (Const "compose") (Const "kwargs"))).
  repeat (apply Forall_cons; split; [eexists; reflexivity |]).
  apply Forall_nil_2.
Defined.

End ClusterProps.

(** * Further properties *)

(** ** Volume binding *)

Module VolumeMoreProps.
Import Re Volumes VolumeNotions VolumeProps VolumeMoreNotions.

(** *** Dictionaries *)

Lemma dict_get_set_eq (k : string) (v : value) (d : list (string * value)) :
  dict_get k (dict_set k v d) = Some v.
Proof.
  induction d as [| [k' v'] d IH]; cbn [dict_set dict_get].
  - now rewrite String.eqb_refl.
  - destruct (String.eqb k k') eqn:E; cbn [dict_get]; rewrite E; [reflexivity | exact IH].
Qed.

Lemma dict_get_set_ne (k k' : string) (v : value) (d : list (string * value)) :
  k <> k' -> dict_get k' (dict_set k v d) = dict_get k' d.
Proof.
  intros Hne. induction d as [| [k0 v0] d IH]; cbn [dict_set dict_get].
  - apply not_eq_sym in Hne. apply String.eqb_neq in Hne. now rewrite Hne.
  - destruct (String.eqb k k0) eqn:E; cbn [dict_get].
    + apply String.eqb_eq in E. subst k0.
      apply not_eq_sym in Hne. apply String.eqb_neq in Hne. now rewrite Hne.
    + now rewrite IH.
Qed.

(** [d.update(e)] reads as [e] on the keys of [e] and as [d] elsewhere. *)
Lemma dict_get_update (k : string) (e : list (string * value)) :
  dict_wf e = true ->
  forall d : list (string * value),
    dict_get k (dict_update d e)
    = match dict_get k e with
      | Some v => Some v
      | None => dict_get k d
      end.
Proof.
  unfold dict_update.
  induction e as [| [k1 v1] e IH]; intros Hwf d; [reflexivity |].
  cbn [dict_wf] in Hwf. apply andb_true_iff in Hwf as [Hk1 Hwf].
  cbn [fold_left fst snd dict_get]. rewrite (IH Hwf).
  destruct (String.eqb_spec k k1) as [-> | Hne].
  - unfold has_key in Hk1. destruct (dict_get k1 e); [discriminate |].
    apply dict_get_set_eq.
  - destruct (dict_get k e); [reflexivity |].
    apply dict_get_set_ne. congruence.
Qed.

Lemma keyisset_update (k : string) (e : list (string * value)) :
  dict_wf e = true -> k <> "read_only" ->
  keyisset k (VDict (long_config e)) = keyisset k (VDict e).
Proof.
  intros Hwf Hne. unfold keyisset, long_config.
  rewrite (dict_get_update k e Hwf). destruct (dict_get k e); [reflexivity |].
  cbn [dict_get]. apply String.eqb_neq in Hne. now rewrite Hne.
Qed.

Lemma is_tmpfs_total (config : value) :
  is_tmpfs config
  = Return (keyisset "tmpfs" config
            || match config with
               | VDict d => keyisset "type" config
                            && match dict_get "type" d with
                               | Some v => str_eq "tmpfs" v
                               | None => false
                               end
               | _ => false
               end).
Proof.
  unfold is_tmpfs, key_is. destruct config; try reflexivity.
  destruct (keyisset "tmpfs" (VDict d)); [reflexivity |].
  cbn [orb]. unfold keyisset, getitem.
  destruct (dict_get "type" d) as [v |]; [| reflexivity].
  destruct (truthy v); reflexivity.
Qed.

Lemma is_tmpfs_update (d : list (string * value)) :
  dict_wf d = true -> is_tmpfs (VDict (long_config d)) = is_tmpfs (VDict d).
Proof.
  intros Hwf. rewrite !is_tmpfs_total.
  rewrite !(keyisset_update _ d Hwf) by discriminate.
  unfold long_config. rewrite (dict_get_update "type" d Hwf).
  destruct (dict_get "type" d); reflexivity.
Qed.

(** X1: for a long-form volume declaration that is not tmpfs and has the
    keys [target] and [source], [handle_volume_dict_config] hands to
    [match_volumes_services_config] the record [{"read_only": False}]
    updated with the declaration: every key of the declaration keeps its
    value (a [read_only] of the declaration included), and [read_only] is
    [False] when the declaration does not give it. *)
Theorem long_form_merged (service : nat) (d : list (string * value)) (w : world) :
  dict_wf d = true ->
  is_tmpfs (VDict d) = Return false ->
  has_key "target" d = true -> has_key "source" d = true ->
  handle_volume_dict_config service (VDict d) w
  = match_volumes_services_config service (VDict (long_config d)) w
  /\ (forall k : string,
        dict_get k (long_config d)
        = match dict_get k d with
          | Some v => Some v
          | None => if String.eqb k "read_only" then Some (VBool false) else None
          end).
Proof.
  intros Hwf Htmpfs Ht Hs. split.
  - unfold handle_volume_dict_config.
    unfold bind at 1. unfold lift at 1. rewrite Htmpfs.
    unfold bind at 1. unfold bind at 1. unfold lift at 1.
    cbn [has_required_keys required_keys forallb]. rewrite Ht, Hs.
    cbn [andb negb]. unfold ret at 1.
    fold (long_config d).
    unfold bind, lift. rewrite (is_tmpfs_update d Hwf), Htmpfs. reflexivity.
  - intros k. unfold long_config. rewrite (dict_get_update k d Hwf).
    destruct (dict_get k d); [reflexivity |]. reflexivity.
Qed.

(** X2: a long-form volume declaration that is not tmpfs and lacks
    [target] or [source] makes [handle_volume_dict_config] raise the
    [KeyError] that lists the required keys and the keys it got; the state
    is left as it was. *)
Theorem long_form_missing_keys (service : nat) (d : list (string * value))
    (w : world) :
  is_tmpfs (VDict d) = Return false ->
  has_key "target" d = false \/ has_key "source" d = false ->
  handle_volume_dict_config service (VDict d) w
  = (Raise (missing_required_keys d), w).
Proof.
  intros Htmpfs Hmissing. unfold handle_volume_dict_config.
  unfold bind at 1. unfold lift at 1. rewrite Htmpfs.
  unfold bind at 1. unfold bind at 1. unfold lift at 1.
  cbn [has_required_keys required_keys forallb].
  assert (E : has_key "target" d && (has_key "source" d && true) = false).
  { destruct Hmissing as [-> | ->]; [reflexivity |].
    destruct (has_key "target" d); reflexivity. }
  rewrite E. reflexivity.
Qed.

(** X3: on a declaration that [is_tmpfs] takes for a tmpfs mount,
    [handle_volume_dict_config] returns without a check of the keys,
    without a search of the volumes and without any change of the
    state. *)
Theorem long_form_tmpfs_ignored (service : nat) (d : list (string * value))
    (w : world) :
  dict_wf d = true ->
  is_tmpfs (VDict d) = Return true ->
  handle_volume_dict_config service (VDict d) w = (Return tt, w).
Proof.
  intros Hwf Htmpfs. unfold handle_volume_dict_config.
  unfold bind at 1. unfold lift at 1. rewrite Htmpfs.
  unfold bind at 1. unfold ret at 1.
  fold (long_config d).
  unfold bind, lift. rewrite (is_tmpfs_update d Hwf), Htmpfs. reflexivity.
Qed.

(** X4: the test that opens the loop of [map_volumes],
    [isinstance(s_volume, dict) and (...) or keyisset("tmpfs", s_volume)],
    gives on every entry the answer of [is_tmpfs], whatever the grouping of
    [and] and [or]: an entry reaches the handlers only when [is_tmpfs] is
    false for it. *)
Theorem tmpfs_tests_agree (v : value) : tmpfs_entry v = is_tmpfs v.
Proof.
  destruct v; try reflexivity. apply tmpfs_entry_is_tmpfs.
Qed.

Lemma long_form_merged_witness :
  handle_volume_dict_config 0
    (VDict [("source", VStr "cache"); ("target", VStr "/var/cache")])
    (world_of app_svc [cache_vol] 0)
  = match_volumes_services_config 0
      (VDict [("read_only", VBool false); ("source", VStr "cache");
              ("target", VStr "/var/cache")])
      (world_of app_svc [cache_vol] 0).
Proof.
  apply (proj1 (long_form_merged 0
                  [("source", VStr "cache"); ("target", VStr "/var/cache")]
                  (world_of app_svc [cache_vol] 0)
                  eq_refl eq_refl eq_refl eq_refl)).
Defined.

Lemma long_form_missing_keys_witness :
  handle_volume_dict_config 0 (VDict [("target", VStr "/var/cache")])
    (world_of app_svc [cache_vol] 0)
  = (Raise (missing_required_keys [("target", VStr "/var/cache")]),
     world_of app_svc [cache_vol] 0).
Proof.
  apply (long_form_missing_keys 0 [("target", VStr "/var/cache")]
           (world_of app_svc [cache_vol] 0) eq_refl).
  right. reflexivity.
Defined.

Lemma long_form_tmpfs_ignored_witness :
  handle_volume_dict_config 0
    (VDict [("type", VStr "tmpfs"); ("target", VStr "/run")])
    (world_of app_svc [cache_vol] 0)
  = (Return tt, world_of app_svc [cache_vol] 0).
Proof.
  apply (long_form_tmpfs_ignored 0
           [("type", VStr "tmpfs"); ("target", VStr "/run")]
           (world_of app_svc [cache_vol] 0) eq_refl eq_refl).
Defined.

(** *** What the helpers keep *)

Lemma volume_kept_refl (v : ComposeVolume) : volume_kept v v.
Proof. repeat split; reflexivity. Qed.

Lemma volume_kept_trans (a b c : ComposeVolume) :
  volume_kept a b -> volume_kept b c -> volume_kept a c.
Proof.
  intros (H1 & H2 & H3 & H4) (K1 & K2 & K3 & K4).
  repeat split; try congruence. etransitivity; eassumption.
Qed.

Lemma service_kept_refl (s : ComposeService) : service_kept s s.
Proof. repeat split; reflexivity. Qed.

Lemma service_kept_trans (a b c : ComposeService) :
  service_kept a b -> service_kept b c -> service_kept a c.
Proof.
  intros (H1 & H2 & H3 & H4) (K1 & K2 & K3 & K4).
  repeat split; try congruence; etransitivity; eassumption.
Qed.

Lemma Forall2_same {A} (R : A -> A -> Prop) (l : list A) :
  (forall x, R x x) -> Forall2 R l l.
Proof. intros H. induction l; constructor; auto. Qed.

Lemma Forall2_chain {A} (R : A -> A -> Prop) :
  (forall a b c, R a b -> R b c -> R a c) ->
  forall l1 l2 l3, Forall2 R l1 l2 -> Forall2 R l2 l3 -> Forall2 R l1 l3.
Proof.
  intros HR l1 l2 l3 H12. revert l3.
  induction H12 as [| a b l1 l2 Hab _ IH]; intros l3 H23.
  - inversion H23. constructor.
  - inversion H23; subst. constructor; eauto.
Qed.

Lemma Forall2_altered {A} (R : A -> A -> Prop) (f : A -> A) (l : list A) (i : nat) :
  (forall x, R x x) -> (forall x, R x (f x)) -> Forall2 R l (alter f i l).
Proof.
  intros Hr Hf. revert i. induction l as [| x l IH]; intros [| i]; cbn.
  - constructor.
  - constructor.
  - constructor; [apply Hf | apply Forall2_same; assumption].
  - constructor; [apply Hr | apply IH].
Qed.

Lemma grown_refl (service : nat) (w : world) : grown service w w.
Proof.
  repeat split.
  - apply Forall2_same, service_kept_refl.
  - exists (vols w), []. split; [now rewrite app_nil_r |].
    apply Forall2_same, volume_kept_refl.
  - lia.
Qed.

Lemma grown_trans (service : nat) (a b c : world) :
  grown service a b -> grown service b c -> grown service a c.
Proof.
  intros (S1 & O1 & (old1 & new1 & E1 & V1) & U1 & D1)
         (S2 & O2 & (old2 & new2 & E2 & V2) & U2 & D2).
  repeat split.
  - exact (Forall2_chain _ service_kept_trans _ _ _ S1 S2).
  - intros j Hj. rewrite (O2 j Hj). exact (O1 j Hj).
  - rewrite E1 in V2. apply Forall2_app_inv_l in V2 as (o1 & o2 & Vo1 & Vo2 & ->).
    exists o1, (o2 ++ new2). split; [now rewrite E2, app_assoc |].
    exact (Forall2_chain _ volume_kept_trans _ _ _ V1 Vo1).
  - congruence.
  - lia.
Qed.

Lemma keeps_ret {A} (service : nat) (a : A) : keeps service (ret a).
Proof. intros w. apply grown_refl. Qed.

Lemma keeps_raise {A} (service : nat) (e : exn) : keeps service (raise (A := A) e).
Proof. intros w. apply grown_refl. Qed.

Lemma keeps_lift {A} (service : nat) (o : outcome A) : keeps service (lift o).
Proof. intros w. apply grown_refl. Qed.

Lemma keeps_bind {A B} (service : nat) (m : M A) (f : A -> M B) :
  keeps service m -> (forall a, keeps service (f a)) -> keeps service (bind m f).
Proof.
  intros Hm Hf w. unfold bind. specialize (Hm w).
  destruct (m w) as [[a | e] w1]; cbn [snd] in *; [| exact Hm].
  exact (grown_trans _ _ _ _ Hm (Hf a w1)).
Qed.

Lemma keeps_get_vols (service : nat) : keeps service get_vols.
Proof. intros w. apply grown_refl. Qed.

Lemma keeps_service_name (service : nat) : keeps service (service_name service).
Proof.
  intros w. unfold service_name. destruct (svcs w !! service); apply grown_refl.
Qed.

Lemma keeps_service_definition (service : nat) :
  keeps service (service_definition service).
Proof.
  intros w. unfold service_definition. destruct (svcs w !! service); apply grown_refl.
Qed.

Lemma grown_svcs_altered (service : nat) (f : ComposeService -> ComposeService)
    (w : world) :
  (forall s, service_kept s (f s)) ->
  grown service w (with_svcs (alter f service (svcs w)) w).
Proof.
  intros Hf. repeat split; cbn [svcs vols urandom drawn with_svcs].
  - apply Forall2_altered; [apply service_kept_refl | exact Hf].
  - intros j Hj. apply list_lookup_alter_ne. congruence.
  - exists (vols w), []. split; [now rewrite app_nil_r |].
    apply Forall2_same, volume_kept_refl.
  - lia.
Qed.

Lemma keeps_service_volumes_append (service : nat) (cfg : value) :
  keeps service (service_volumes_append service cfg).
Proof.
  intros w. unfold service_volumes_append.
  destruct (svcs w !! service); [| apply grown_refl].
  apply grown_svcs_altered. intros s. repeat split; try reflexivity.
  cbn. now apply prefix_app_r.
Qed.

Lemma keeps_service_tmpfses_append (service : nat) (def : value) :
  keeps service (service_tmpfses_append service def).
Proof.
  intros w. unfold service_tmpfses_append.
  destruct (svcs w !! service); [| apply grown_refl].
  apply grown_svcs_altered. intros s. repeat split; try reflexivity.
  cbn. now apply prefix_app_r.
Qed.

Lemma keeps_volume_services_append (service i : nat) :
  keeps service (volume_services_append i service).
Proof.
  intros w. unfold volume_services_append. cbn [snd].
  repeat split; cbn [svcs vols urandom drawn with_vols].
  - apply Forall2_same, service_kept_refl.
  - exists (alter (add_service service) i (vols w)), [].
    split; [now rewrite app_nil_r |].
    apply Forall2_altered; [apply volume_kept_refl |].
    intros v. repeat split; try reflexivity. cbn. now apply prefix_app_r.
  - lia.
Qed.

Lemma keeps_volumes_append (service : nat) (v : ComposeVolume) :
  keeps service (volumes_append v).
Proof.
  intros w. unfold volumes_append. cbn [snd].
  repeat split; cbn [svcs vols urandom drawn with_vols].
  - apply Forall2_same, service_kept_refl.
  - exists (vols w), [v]. split; [reflexivity |].
    apply Forall2_same, volume_kept_refl.
  - lia.
Qed.

Lemma keeps_uuid4_hex (service : nat) : keeps service uuid4_hex.
Proof.
  intros w. unfold uuid4_hex. cbn [snd].
  repeat split; cbn [svcs vols urandom drawn].
  - apply Forall2_same, service_kept_refl.
  - exists (vols w), []. split; [now rewrite app_nil_r |].
    apply Forall2_same, volume_kept_refl.
  - lia.
Qed.

Create HintDb keeps discriminated.
#[local] Hint Resolve keeps_ret keeps_raise keeps_lift keeps_get_vols
  keeps_service_name keeps_service_definition keeps_service_volumes_append
  keeps_service_tmpfses_append keeps_volume_services_append
  keeps_volumes_append keeps_uuid4_hex : keeps.

Ltac keeps_step :=
  repeat first
    [ apply keeps_bind; [| intros ?]
    | solve [auto with keeps]
    | match goal with
      | |- keeps _ (if ?b then _ else _) => destruct b
      | |- keeps _ (match ?x with _ => _ end) => destruct x
      end ].

Lemma keeps_scan_volumes (service : nat) (cfg : value) (todo : list ComposeVolume) :
  forall i, keeps service (scan_volumes service cfg i todo).
Proof.
  induction todo as [| v todo IH]; intros i; cbn [scan_volumes].
  - auto with keeps.
  - destruct (negb (keyisset "source" cfg) && negb (keyisset "volume" (VVolume i)));
      [apply IH |].
    apply keeps_bind; [auto with keeps | intros src].
    destruct (str_eq (vol_name v) src); [| apply IH].
    keeps_step.
Qed.

Lemma keeps_match (service : nat) (cfg : value) :
  keeps service (match_volumes_services_config service cfg).
Proof.
  unfold match_volumes_services_config.
  apply keeps_bind; [keeps_step | intros host].
  destruct host; [auto with keeps |].
  apply keeps_bind; [auto with keeps | intros l].
  apply keeps_bind; [apply keeps_scan_volumes | intros returned].
  destruct returned; keeps_step.
Qed.

Lemma keeps_handle_str (service : nat) (config : string) :
  keeps service (handle_volume_str_config service config).
Proof.
  unfold handle_volume_str_config.
  destruct (re_match path_finder config) as [g |]; [| auto with keeps].
  destruct (group_set "target" g); [| auto with keeps].
  apply keeps_bind; [| intros cfg; apply keeps_match].
  destruct (group_set "source" g); keeps_step.
Qed.

Lemma keeps_handle_dict (service : nat) (config : value) :
  keeps service (handle_volume_dict_config service config).
Proof.
  unfold handle_volume_dict_config.
  apply keeps_bind; [auto with keeps | intros tmpfs].
  apply keeps_bind; [keeps_step | intros missing].
  destruct missing; [keeps_step |].
  destruct config; auto with keeps.
  apply keeps_bind; [auto with keeps | intros t].
  destruct t; [auto with keeps | apply keeps_match].
Qed.

Lemma keeps_map_volume (service : nat) (s_volume : value) :
  keeps service (map_volume service s_volume).
Proof.
  unfold map_volume.
  apply keeps_bind; [auto with keeps | intros tmpfs].
  destruct tmpfs.
  - destruct (negb (keyisset "target" s_volume)); keeps_step.
  - apply keeps_bind; [auto with keeps | intros l].
    destruct l; [auto with keeps |].
    destruct s_volume; auto with keeps;
      [apply keeps_handle_str | apply keeps_handle_dict].
Qed.

Lemma keeps_map_volume_list (service : nat) (l : list value) :
  keeps service (map_volume_list service l).
Proof.
  induction l as [| x l IH]; cbn [map_volume_list]; [auto with keeps |].
  apply keeps_bind; [apply keeps_map_volume | intros _; exact IH].
Qed.

(** X5: whatever [map_volumes] does for a service, and whether it returns
    or raises, it only adds: every service keeps its name and definition
    and its earlier records and mounts in front of the new ones, the other
    services are what they were, every volume keeps its name, definition
    and [autogenerated] flag and its earlier services in front of the new
    ones, new volumes come at the end of the list, and random bytes are
    only consumed. *)
Theorem map_volumes_only_adds (service : nat) (w : world) :
  grown service w (snd (map_volumes service w)).
Proof.
  revert w. change (keeps service (map_volumes service)).
  unfold map_volumes.
  apply keeps_bind; [auto with keeps | intros def].
  destruct (keyisset main_key def); [| auto with keeps].
  apply keeps_bind; [auto with keeps | intros section].
  apply keeps_bind; [auto with keeps | intros l].
  apply keeps_map_volume_list.
Qed.

(** *** An entry that fails leaves nothing behind *)

(** The loop either links the service and returns, or changes nothing. *)
Lemma scan_volumes_outcome (service : nat) (svc : ComposeService) (cfg : value)
    (todo : list ComposeVolume) :
  forall (i : nat) (w w' : world) (r : outcome bool),
    svcs w !! service = Some svc ->
    scan_volumes service cfg i todo w = (r, w') ->
    r = Return true \/ w' = w.
Proof.
  induction todo as [| v todo IH]; intros i w w' r Hsvc H; cbn [scan_volumes] in H.
  - injection H as <- <-. now right.
  - destruct (negb (keyisset "source" cfg) && negb (keyisset "volume" (VVolume i)));
      [exact (IH _ _ _ _ Hsvc H) |].
    unfold bind at 1, lift at 1 in H.
    destruct (getitem cfg "source") as [src | e].
    + destruct (str_eq (vol_name v) src); [| exact (IH _ _ _ _ Hsvc H)].
      unfold bind, volume_services_append, service_volumes_append, ret in H.
      cbn [svcs with_vols] in H. rewrite Hsvc in H.
      injection H as <- _. now left.
    + injection H as _ <-. now right.
Qed.

Lemma match_atomic (service : nat) (svc : ComposeService) (cfg : value)
    (w w' : world) (e : exn) :
  svcs w !! service = Some svc ->
  match_volumes_services_config service cfg w = (Raise e, w') ->
  w' = w.
Proof.
  intros Hsvc H. unfold match_volumes_services_config in H.
  unfold bind at 1 in H.
  match type of H with
  | match ?host w with _ => _ end = _ =>
      assert (Hhost : snd (host w) = w)
  end.
  { destruct (keyisset "source" cfg); [| reflexivity].
    unfold bind, lift. destruct (getitem cfg "source") as [src |]; [| reflexivity].
    destruct (startswith src "/"); reflexivity. }
  match type of H with
  | match ?host w with _ => _ end = _ =>
      destruct (host w) as [[host_bind | e0] w0]
  end; cbn [snd] in Hhost; subst w0; [| now injection H as _ <-].
  destruct host_bind.
  - unfold service_volumes_append in H. rewrite Hsvc in H. discriminate.
  - unfold bind at 1, get_vols at 1 in H. unfold bind at 1 in H.
    destruct (scan_volumes service cfg 0 (vols w) w) as [[returned | e0] w0] eqn:Hscan.
    + destruct (scan_volumes_outcome _ _ _ _ _ _ _ _ Hsvc Hscan) as [E | ->].
      * injection E as ->. discriminate.
      * destruct returned; [discriminate |].
        unfold bind, lift, get_vols, raise in H.
        destruct (getitem cfg "source"); now injection H as _ <-.
    + destruct (scan_volumes_outcome _ _ _ _ _ _ _ _ Hsvc Hscan) as [E | ->];
        [discriminate |].
      now injection H as _ <-.
Qed.

(** The volume that bears the generated name first, once the new one is
    in the list. *)
Lemma match_generated (service : nat) (svc : ComposeService)
    (d : list (string * value)) (w : world) :
  svcs w !! service = Some svc ->
  dict_get "source" d = Some (VStr (generated_name w)) ->
  exists (i : nat) (v : ComposeVolume),
    (vols w ++ [generated_volume w]) !! i = Some v
    /\ vol_name v = generated_name w
    /\ (forall j u, j < i -> (vols w ++ [generated_volume w]) !! j = Some u ->
                    vol_name u <> generated_name w)
    /\ (i = length (vols w)
        <-> Forall (fun u => vol_name u <> generated_name w) (vols w))
    /\ match_volumes_services_config service (VDict d)
         (declared (generated_volume w) w)
       = (Return tt,
          attached service (VDict (dict_set "volume" (VVolume i) d))
            (linked i service (declared (generated_volume w) w))).
Proof.
  intros Hsvc Hsrc.
  destruct (first_named (generated_name w) (vols w ++ [generated_volume w]))
    as (pre & v & post & Hsplit & Hv & Hpre).
  { apply Exists_app. right. constructor. reflexivity. }
  exists (length pre), v. split; [rewrite Hsplit; apply lookup_split |].
  split; [exact Hv |]. split.
  { intros j u Hj Hu. rewrite Hsplit in Hu.
    exact (before_first _ _ _ _ _ _ Hpre Hj Hu). }
  split.
  { split.
    - intros Hlen.
      assert (E : pre = vols w).
      { apply (f_equal (take (length pre))) in Hsplit.
        rewrite take_app_length in Hsplit. rewrite Hlen in Hsplit.
        rewrite take_app_length in Hsplit. congruence. }
      now rewrite <- E.
    - intros Hfresh.
      destruct (Nat.lt_trichotomy (length pre) (length (vols w))) as [Hlt | [E | Hgt]];
        [| exact E |].
      + exfalso.
        assert (Hat : (vols w ++ [generated_volume w]) !! length pre = Some v).
        { rewrite Hsplit. apply lookup_split. }
        rewrite lookup_app_l in Hat by exact Hlt.
        rewrite Forall_forall in Hfresh.
        apply (Hfresh v); [| exact Hv].
        apply list_elem_of_lookup. eauto.
      + exfalso. apply (f_equal (@length _)) in Hsplit.
        rewrite !length_app in Hsplit. cbn [length] in Hsplit. lia. }
  apply (match_links service svc d (generated_name w) pre v post
           (declared (generated_volume w) w)); try assumption.
  - intros E. pose proof (generated_name_nonempty w) as H. rewrite E in H.
    discriminate.
  - apply generated_name_no_slash.
Qed.

(** A string without source is never refused. *)
Lemma handle_no_source (service : nat) (svc : ComposeService) (config : string)
    (g : groups) (target : string) (w : world) :
  svcs w !! service = Some svc ->
  re_match path_finder config = Some g ->
  group_set "target" g = Some target ->
  group_set "source" g = None ->
  exists w', handle_volume_str_config service config w = (Return tt, w').
Proof.
  intros Hsvc Hg Ht Hs. unfold handle_volume_str_config.
  rewrite Hg, Ht, Hs.
  unfold bind at 1. unfold bind at 1. unfold uuid4_hex at 1.
  unfold bind at 1. unfold volumes_append at 1. unfold ret at 1.
  cbn [setitem dict_set String.eqb Ascii.eqb Bool.eqb vol_name set_autogenerated
       ComposeVolume_init vols svcs urandom drawn with_vols].
  fold (generated_name w).
  match goal with
  | |- exists w', match_volumes_services_config _ ?cfg ?w1 = _ =>
      change w1 with (declared (generated_volume w) w);
      assert (Hcfg : exists d, cfg = VDict d
                               /\ dict_get "source" d = Some (VStr (generated_name w)))
  end.
  { destruct (group_set "mode" g) as [m |]; [destruct (String.eqb m "ro") |];
      eexists; split; reflexivity. }
  destruct Hcfg as (d & -> & Hsrc).
  destruct (match_generated service svc d w Hsvc Hsrc) as (i & v & _ & _ & _ & _ & ->).
  eauto.
Qed.

Lemma handle_str_atomic (service : nat) (svc : ComposeService) (config : string)
    (w w' : world) (e : exn) :
  svcs w !! service = Some svc ->
  handle_volume_str_config service config w = (Raise e, w') ->
  w' = w.
Proof.
  intros Hsvc H.
  destruct (re_match path_finder config) as [g |] eqn:Hg;
    [| unfold handle_volume_str_config in H; rewrite Hg in H;
       now injection H as _ <-].
  destruct (group_set "target" g) as [target |] eqn:Ht;
    [| unfold handle_volume_str_config in H; rewrite Hg, Ht in H;
       now injection H as _ <-].
  destruct (group_set "source" g) as [source |] eqn:Hs.
  - unfold handle_volume_str_config in H. rewrite Hg, Ht, Hs in H.
    unfold bind at 1, ret at 1 in H.
    exact (match_atomic _ _ _ _ _ _ Hsvc H).
  - destruct (handle_no_source _ _ _ _ _ _ Hsvc Hg Ht Hs) as [w1 E].
    rewrite E in H. discriminate.
Qed.

Lemma handle_dict_atomic (service : nat) (svc : ComposeService) (config : value)
    (w w' : world) (e : exn) :
  svcs w !! service = Some svc ->
  handle_volume_dict_config service config w = (Raise e, w') ->
  w' = w.
Proof.
  intros Hsvc H. unfold handle_volume_dict_config in H.
  unfold bind at 1, lift at 1 in H.
  destruct (is_tmpfs config) as [tmpfs |]; [| now injection H as _ <-].
  unfold bind at 1 in H.
  match type of H with
  | match ?test w with _ => _ end = _ =>
      assert (Htest : snd (test w) = w);
      [| destruct (test w) as [[missing | e0] w0]; cbn [snd] in Htest; subst w0]
  end.
  { destruct tmpfs; [reflexivity |]. unfold bind, lift, ret.
    destruct (has_required_keys config); reflexivity. }
  - destruct missing.
    + destruct config; now injection H as _ <-.
    + destruct config; try now injection H as _ <-.
      unfold bind, lift in H.
      destruct (is_tmpfs _) as [[|] |]; try now injection H as _ <-.
      exact (match_atomic _ _ _ _ _ _ Hsvc H).
  - now injection H as _ <-.
Qed.

Lemma map_volume_atomic (service : nat) (svc : ComposeService) (s_volume : value)
    (w w' : world) (e : exn) :
  svcs w !! service = Some svc ->
  map_volume service s_volume w = (Raise e, w') ->
  w' = w.
Proof.
  intros Hsvc H. unfold map_volume in H.
  unfold bind at 1, lift at 1 in H.
  destruct (tmpfs_entry s_volume) as [[|] |]; [| | now injection H as _ <-].
  - destruct (negb (keyisset "target" s_volume)).
    + unfold bind, service_name, raise in H. rewrite Hsvc in H.
      now injection H as _ <-.
    + unfold bind, lift, service_tmpfses_append in H.
      destruct (getitem s_volume "target"); [| now injection H as _ <-].
      destruct (tmpfs_size s_volume) as [[z |] |];
        try rewrite Hsvc in H; try discriminate; now injection H as _ <-.
  - unfold bind, get_vols in H.
    destruct (vols w); [discriminate |].
    destruct s_volume; try discriminate.
    + exact (handle_str_atomic _ _ _ _ _ _ Hsvc H).
    + exact (handle_dict_atomic _ _ _ _ _ _ Hsvc H).
Qed.

(** The service is still there after any of the helpers. *)
Lemma grown_service (service : nat) (svc : ComposeService) (w w' : world) :
  grown service w w' -> svcs w !! service = Some svc ->
  exists svc', svcs w' !! service = Some svc'.
Proof.
  intros (Hs & _) Hsvc.
  destruct (Forall2_lookup_l _ _ _ _ _ Hs Hsvc) as (svc' & H & _). eauto.
Qed.

Lemma map_volume_list_first_failure (service : nat) (l : list value) :
  forall (svc : ComposeService) (w w' : world) (e : exn),
    svcs w !! service = Some svc ->
    map_volume_list service l w = (Raise e, w') ->
    exists (pre : list value) (v : value) (post : list value),
      l = pre ++ v :: post
      /\ map_volume_list service pre w = (Return tt, w')
      /\ map_volume service v w' = (Raise e, w').
Proof.
  induction l as [| x l IH]; intros svc w w' e Hsvc H; [discriminate |].
  cbn [map_volume_list] in H. unfold bind in H.
  destruct (map_volume service x w) as [[[] | e0] w1] eqn:Hx.
  - pose proof (keeps_map_volume service x w) as Hg. rewrite Hx in Hg.
    cbn [snd] in Hg.
    destruct (grown_service _ _ _ _ Hg Hsvc) as [svc1 Hsvc1].
    destruct (IH svc1 w1 w' e Hsvc1 H) as (pre & v & post & -> & Hpre & Hv).
    exists (x :: pre), v, post. split; [reflexivity |]. split; [| exact Hv].
    cbn [map_volume_list]. unfold bind. rewrite Hx. exact Hpre.
  - injection H as <- <-.
    pose proof (map_volume_atomic _ _ _ _ _ _ Hsvc Hx) as ->.
    exists [], x, l. repeat split. exact Hx.
Qed.

(** X8: a string [target] or [target:mode] without source never fails for
    a service that exists: the volume with the generated name is declared,
    and the service is attached to the first volume of the list that bears
    this name, with a record that refers to it. That volume is the new one
    exactly when no older volume bears the generated name. *)
Theorem no_source_always_attached (service : nat) (svc : ComposeService)
    (target : string) (mode : option string) (w : world) :
  svcs w !! service = Some svc ->
  target_ok target = true -> mode_ok mode = true ->
  exists (i : nat) (v : ComposeVolume),
    (vols w ++ [generated_volume w]) !! i = Some v
    /\ vol_name v = generated_name w
    /\ (forall j u, j < i -> (vols w ++ [generated_volume w]) !! j = Some u ->
                    vol_name u <> generated_name w)
    /\ (i = length (vols w)
        <-> Forall (fun u => vol_name u <> generated_name w) (vols w))
    /\ handle_volume_str_config service (compact None target mode) w
       = (Return tt,
          attached service
            (VDict (parsed_config (generated_name w) target mode
                    ++ [("volume", VVolume i)]))
            (linked i service (declared (generated_volume w) w))).
Proof.
  intros Hsvc Ht Hm.
  rewrite (handle_without_source _ _ _ _ Ht Hm).
  destruct (match_generated service svc
              (parsed_config (generated_name w) target mode
               ++ [("volume", VVolume (length (vols w)))]) w Hsvc eq_refl)
    as (i & v & H1 & H2 & H3 & H4 & H5).
  exists i, v. repeat split; try assumption; try apply H4.
Qed.

(** X6: for a service that exists, a call of
    [match_volumes_services_config], [handle_volume_str_config] or
    [handle_volume_dict_config] that raises leaves the services, the
    volumes and the random source as they were. *)
Theorem failed_entry_changes_nothing (service : nat) (svc : ComposeService)
    (w w' : world) (e : exn) :
  svcs w !! service = Some svc ->
  (forall cfg : value,
      match_volumes_services_config service cfg w = (Raise e, w') -> w' = w)
  /\ (forall config : string,
      handle_volume_str_config service config w = (Raise e, w') -> w' = w)
  /\ (forall config : value,
      handle_volume_dict_config service config w = (Raise e, w') -> w' = w).
Proof.
  intros Hsvc. repeat split.
  - intros cfg. exact (match_atomic _ _ _ _ _ _ Hsvc).
  - intros config. exact (handle_str_atomic _ _ _ _ _ _ Hsvc).
  - intros config. exact (handle_dict_atomic _ _ _ _ _ _ Hsvc).
Qed.

(** X7: when [map_volumes] raises in its loop, the entries before the
    failing one have been processed and what they attached stays, the
    failing entry has changed nothing, its exception is the one that
    [map_volumes] raises, and the entries behind it are not looked at. *)
Theorem map_volumes_stops_at_first_failure (service : nat) (svc : ComposeService)
    (def : list (string * value)) (section : value) (l : list value)
    (w w' : world) (e : exn) :
  svcs w !! service = Some svc ->
  definition svc = VDict def ->
  dict_get "volumes" def = Some section ->
  iterate section = Return l ->
  map_volumes service w = (Raise e, w') ->
  exists (pre : list value) (v : value) (post : list value),
    l = pre ++ v :: post
    /\ map_volume_list service pre w = (Return tt, w')
    /\ map_volume service v w' = (Raise e, w').
Proof.
  intros Hsvc Hdef Hget Hiter H.
  unfold map_volumes, bind, service_definition, lift in H.
  rewrite Hsvc, Hdef in H. unfold keyisset, main_key, getitem in H.
  rewrite Hget in H.
  destruct (truthy section); [| discriminate].
  rewrite Hiter in H.
  exact (map_volume_list_first_failure service l svc w w' e Hsvc H).
Qed.

Lemma no_source_always_attached_witness :
  exists (i : nat) (v : ComposeVolume),
    ([] ++ [generated_volume (world_of web_svc [] 0)]) !! i = Some v
    /\ vol_name v = "000000"
    /\ handle_volume_str_config 0 "/data" (world_of web_svc [] 0)
       = (Return tt,
          attached 0
            (VDict [("read_only", VBool false); ("target", VStr "/data");
                    ("source", VStr "000000"); ("volume", VVolume i)])
            (linked i 0 (declared (generated_volume (world_of web_svc [] 0))
                           (world_of web_svc [] 0)))).
Proof.
  destruct (no_source_always_attached 0 web_svc "/data" None
              (world_of web_svc [] 0) eq_refl eq_refl eq_refl)
    as (i & v & H1 & H2 & _ & _ & H5).
  exists i, v. split; [exact H1 |]. split; [exact H2 | exact H5].
Defined.

Lemma failed_entry_changes_nothing_witness :
  snd (handle_volume_str_config 0 "data:/var/lib" (world_of app_svc [cache_vol] 0))
  = world_of app_svc [cache_vol] 0.
Proof.
  apply (proj1 (proj2 (failed_entry_changes_nothing 0 app_svc
                         (world_of app_svc [cache_vol] 0)
                         (snd (handle_volume_str_config 0 "data:/var/lib"
                                 (world_of app_svc [cache_vol] 0)))
                         (LookupError (VStr "data") ["cache"]) eq_refl))
           "data:/var/lib").
  reflexivity.
Defined.

Lemma map_volumes_stops_at_first_failure_witness :
  exists (pre : list value) (v : value) (post : list value),
    [VStr "cache:/var/cache"; VStr "data:/var/lib"; VStr "/srv:/srv:ro"]
    = pre ++ v :: post
    /\ map_volume_list 0 pre (world_of batch_svc [cache_vol] 0)
       = (Return tt, snd (map_volumes 0 (world_of batch_svc [cache_vol] 0)))
    /\ map_volume 0 v (snd (map_volumes 0 (world_of batch_svc [cache_vol] 0)))
       = (Raise (LookupError (VStr "data") ["cache"]),
          snd (map_volumes 0 (world_of batch_svc [cache_vol] 0))).
Proof.
  apply (map_volumes_stops_at_first_failure 0 batch_svc
           [("volumes",
             VList [VStr "cache:/var/cache"; VStr "data:/var/lib";
                    VStr "/srv:/srv:ro"])]
           (VList [VStr "cache:/var/cache"; VStr "data:/var/lib";
                   VStr "/srv:/srv:ro"])
           [VStr "cache:/var/cache"; VStr "data:/var/lib"; VStr "/srv:/srv:ro"]
           (world_of batch_svc [cache_vol] 0)
           (snd (map_volumes 0 (world_of batch_svc [cache_vol] 0)))
           (LookupError (VStr "data") ["cache"])
           eq_refl eq_refl eq_refl eq_refl).
  reflexivity.
Defined.

(** *** Without candidate volumes *)

Lemma map_volumes_alter (f : ComposeService -> ComposeService) (i : nat)
    (l : list ComposeService) :
  (forall s, volumes (f s) = volumes s) ->
  map volumes (alter f i l) = map volumes l.
Proof.
  intros Hf. revert i. induction l as [| x l IH]; intros [| i]; cbn;
    try reflexivity.
  - now rewrite Hf.
  - f_equal. apply IH.
Qed.

Lemma map_volume_unattached (service : nat) (s_volume : value) (w : world) :
  vols w = [] -> unattached w (snd (map_volume service s_volume w)).
Proof.
  intros Hv. unfold map_volume, bind, lift.
  destruct (tmpfs_entry s_volume) as [[|] |]; cbn [snd]; try (now repeat split).
  - destruct (negb (keyisset "target" s_volume)).
    + unfold service_name, raise. destruct (svcs w !! service); now repeat split.
    + destruct (getitem s_volume "target"); [| now repeat split].
      destruct (tmpfs_size s_volume) as [size |]; [| now repeat split].
      unfold service_tmpfses_append.
      destruct (svcs w !! service); [| now repeat split].
      cbn [snd]. repeat split; cbn [vols svcs drawn with_svcs]; try assumption.
      apply map_volumes_alter. reflexivity.
  - unfold get_vols. rewrite Hv. now repeat split.
Qed.

Lemma map_volume_list_unattached (service : nat) (l : list value) :
  forall w, vols w = [] -> unattached w (snd (map_volume_list service l w)).
Proof.
  induction l as [| x l IH]; intros w Hv; [now repeat split |].
  cbn [map_volume_list]. unfold bind.
  pose proof (map_volume_unattached service x w Hv) as (H1 & H2 & H3).
  destruct (map_volume service x w) as [[[] | e] w1]; cbn [snd] in *;
    [| now repeat split].
  destruct (IH w1 H1) as (K1 & K2 & K3). repeat split; congruence.
Qed.

(** X9: with an empty candidate volume list, [map_volumes] declares no
    volume, adds no record to the volumes of any service and draws no
    random bytes, whatever the entries are: only tmpfs mounts can be
    recorded. *)
Theorem nothing_attached_without_volumes (service : nat) (w : world) :
  vols w = [] ->
  vols (snd (map_volumes service w)) = []
  /\ map volumes (svcs (snd (map_volumes service w))) = map volumes (svcs w)
  /\ drawn (snd (map_volumes service w)) = drawn w.
Proof.
  intros Hv. change (unattached w (snd (map_volumes service w))).
  unfold map_volumes, bind, service_definition, lift.
  destruct (svcs w !! service) as [svc |]; [| now repeat split].
  destruct (keyisset main_key (definition svc)); [| now repeat split].
  destruct (getitem (definition svc) main_key) as [section |]; [| now repeat split].
  destruct (iterate section) as [l |]; [| now repeat split].
  apply map_volume_list_unattached. exact Hv.
Qed.

(** *** The generated name *)

Lemma append_assoc (a b c : string) : (a +:+ b) +:+ c = a +:+ (b +:+ c).
Proof.
  induction a as [| x a IH]; [reflexivity |].
  rewrite !append_cons. now rewrite IH.
Qed.

Lemma hex_digits_acc (k : nat) : forall (n : N) (acc : string),
  hex_digits k n acc = hex_digits k n "" +:+ acc.
Proof.
  induction k as [| k IH]; intros n acc; cbn [hex_digits]; [reflexivity |].
  rewrite (IH _ (String _ acc)), (IH _ (String _ "")).
  rewrite append_assoc. reflexivity.
Qed.

Lemma hex_digits_split (a b : nat) : forall (n : N) (acc : string),
  hex_digits (a + b) n acc
  = hex_digits a (N.shiftr n (4 * N.of_nat b)) (hex_digits b n acc).
Proof.
  induction b as [| b IH]; intros n acc.
  - rewrite Nat.add_0_r. cbn [hex_digits]. now rewrite N.shiftr_0_r.
  - rewrite Nat.add_succ_r. cbn [hex_digits]. rewrite IH.
    rewrite N.shiftr_shiftr. f_equal. f_equal. lia.
Qed.

Lemma hex_head (n : N) :
  substring 0 6 (hex n) = hex_digits 6 (N.shiftr n 104) "".
Proof.
  unfold hex. change 32 with (6 + 26). rewrite (hex_digits_split 6 26 n "").
  change (4 * N.of_nat 26)%N with 104%N.
  rewrite hex_digits_acc.
  pose proof (substring_prefix (hex_digits 6 (N.shiftr n 104) "")
                (hex_digits 26 n "")) as H.
  rewrite hex_digits_length in H. exact H.
Qed.

(** The bits that [uuid4] fixes lie below the first three bytes. *)
Lemma uuid4_int_high (r : N) :
  N.shiftr (uuid4_int r) 104 = N.shiftr (N.land r (N.ones 128)) 104.
Proof.
  apply N.bits_inj. intros n. rewrite !N.shiftr_spec'. unfold uuid4_int.
  rewrite N.lor_spec, N.ldiff_spec, N.lor_spec, N.ldiff_spec.
  assert (Hc : forall c : N, (N.log2 c < 104)%N ->
                             N.testbit c (n + 104) = false).
  { intros c Hlog. apply N.bits_above_log2. lia. }
  rewrite (Hc (N.shiftl 4 76)), (Hc (N.shiftl 61440 64)),
    (Hc (N.shiftl 32768 48)), (Hc (N.shiftl 49152 48)) by reflexivity.
  cbn [negb]. now rewrite !andb_true_r, !orb_false_r.
Qed.

Lemma hex_digit_lower (d : N) : is_lower_hex (hex_digit d) = true.
Proof.
  destruct d as [| p]; [reflexivity |].
  do 4 (try destruct p as [p | p |]); reflexivity.
Qed.

Lemma hex_digits_lower (k : nat) : forall (n : N) (acc : string),
  all_chars is_lower_hex acc = true ->
  all_chars is_lower_hex (hex_digits k n acc) = true.
Proof.
  induction k as [| k IH]; intros n acc Hacc; cbn [hex_digits]; [exact Hacc |].
  apply IH. cbn [all_chars]. now rewrite hex_digit_lower.
Qed.

(** X10: the name [str(uuid4().hex)[:6]] of an auto-created volume is the
    six lower-case hexadecimal digits of the first three random bytes that
    [uuid4] draws: the version and variant bits that [uuid4] sets do not
    reach it. *)
Theorem generated_name_three_bytes (w : world) :
  generated_name w = hex_digits 6 (first_bytes w) ""
  /\ String.length (generated_name w) = 6
  /\ all_chars is_lower_hex (generated_name w) = true.
Proof.
  assert (E : generated_name w = hex_digits 6 (first_bytes w) "").
  { unfold generated_name, first_bytes. rewrite hex_head.
    now rewrite uuid4_int_high. }
  split; [exact E |]. rewrite E. split.
  - apply hex_digits_length.
  - now apply hex_digits_lower.
Qed.

(** *** What follows the mode *)

Lemma mode_is (m : string) : mode_ok (Some m) = true -> m = "ro" \/ m = "rw".
Proof.
  cbn. intros H. apply orb_true_iff in H as [E | E]; apply String.eqb_eq in E; auto.
Qed.

Lemma mode_then_rest (g : groups) (m rest : string) :
  mode_ok (Some m) = true ->
  run (Opt (Cat (Lit ":") (Group "mode" (Alt (Cat (Lit "r") (Lit "o")) (Cat (Lit "r") (Lit "w"))))))
      (":" +:+ m +:+ rest) g (fun _ g' => Some g')
  = Some (("mode", m) :: g).
Proof.
  intros Hm. destruct (mode_is m Hm) as [-> | ->];
    repeat rewrite ?append_cons, ?append_nil;
    cbn [run Ascii.eqb Bool.eqb String.length];
    rewrite Nat.sub_succ_l, Nat.sub_succ_l, Nat.sub_diag by lia;
    cbn [substring]; destruct rest; reflexivity.
Qed.

Lemma target_then_rest (g : groups) (target m rest : string) :
  target_ok target = true -> mode_ok (Some m) = true ->
  run (Cat (Group "target" (Cat (Lit "/") (Plus not_colon_nl)))
           (Opt (Cat (Lit ":") (Group "mode" (Alt (Cat (Lit "r") (Lit "o")) (Cat (Lit "r") (Lit "w")))))))
      (target +:+ ":" +:+ m +:+ rest) g (fun _ g' => Some g')
  = Some (("mode", m) :: ("target", target) :: g).
Proof.
  intros Ht Hm.
  destruct target as [| c [| c' r]]; try discriminate.
  cbn in Ht. apply andb_true_iff in Ht as [Hc Ht]. apply andb_true_iff in Ht as [Hc' Hr].
  apply Ascii.eqb_eq in Hc. subst c.
  set (tail := ":" +:+ m +:+ rest).
  rewrite !append_cons. cbn [run]. rewrite Ascii.eqb_refl, Hc'.
  apply star_max; [assumption | reflexivity |].
  change (String "/" (String c' (r +:+ tail)))
    with (String "/" (String c' r) +:+ tail).
  rewrite captured.
  exact (mode_then_rest (("target", String "/" (String c' r)) :: g) m rest Hm).
Qed.

Lemma with_source_then_rest (source target m rest : string) :
  source_ok source = true -> target_ok target = true ->
  mode_ok (Some m) = true ->
  re_match path_finder (source +:+ ":" +:+ target +:+ ":" +:+ m +:+ rest)
  = Some (groups_of (Some source) target (Some m)).
Proof.
  intros Hs Ht Hm. unfold re_match, path_finder.
  destruct source as [| c [| c' r]]; try discriminate.
  cbn in Hs. apply andb_true_iff in Hs as [Hc Hs].
  apply andb_true_iff in Hs as [_ Hs]. apply andb_true_iff in Hs as [Hc' Hr].
  set (tail := ":" +:+ target +:+ ":" +:+ m +:+ rest).
  rewrite !append_cons.
  cbn [run]. rewrite Hc, Hc'.
  erewrite star_max; [reflexivity | assumption | reflexivity |].
  change (String c (String c' (r +:+ tail))) with (String c (String c' r) +:+ tail).
  rewrite captured. unfold tail. rewrite append_cons, append_nil.
  rewrite Ascii.eqb_refl.
  apply (target_then_rest [("source", String c (String c' r))] target m rest Ht Hm).
Qed.

Lemma without_source_then_rest (target m rest : string) :
  target_ok target = true -> mode_ok (Some m) = true ->
  re_match path_finder (target +:+ ":" +:+ m +:+ rest)
  = Some (groups_of None target (Some m)).
Proof.
  intros Ht Hm. unfold re_match, path_finder.
  cbn [run].
  match goal with
  | |- match ?attempt with _ => _ end = _ =>
      assert (Hfail : attempt = None)
  end.
  { destruct target as [| c [| c' r]]; try discriminate.
    cbn in Ht. apply andb_true_iff in Ht as [Hc Ht].
    apply andb_true_iff in Ht as [Hc' Hr].
    apply Ascii.eqb_eq in Hc. subst c.
    rewrite !append_cons.
    change (non_space "/") with true. cbv iota.
    assert (Hnc : not_colon c' = true).
    { unfold not_colon_nl in Hc'. apply andb_true_iff in Hc' as [Hc' _]. exact Hc'. }
    rewrite Hnc.
    apply star_fails.
    - apply not_colon_nl_not_colon. assumption.
    - reflexivity.
    - destruct (mode_is m Hm) as [-> | ->]; reflexivity.
    - intros x u Hx. unfold not_colon in Hx. apply negb_true_iff in Hx.
      rewrite Ascii.eqb_sym, Hx. reflexivity. }
  rewrite Hfail.
  apply (target_then_rest [] target m rest Ht Hm).
Qed.

Lemma compact_then_rest (source : option string) (target m rest : string) :
  compact source target (Some m) +:+ rest
  = match source with
    | Some s => s +:+ ":" +:+ target +:+ ":" +:+ m +:+ rest
    | None => target +:+ ":" +:+ m +:+ rest
    end.
Proof.
  unfold compact, mode_suffix. destruct source; now rewrite !append_assoc.
Qed.

(** X11: the pattern is matched at the start of the string only: on a
    compact string that ends with the mode [ro] or [rw], any text put
    behind the mode is ignored by [handle_volume_str_config], which does
    what it does on the string without that text. *)
Theorem text_after_mode_ignored (service : nat) (source : option string)
    (target m rest : string) (w : world) :
  match source with Some s => source_ok s | None => true end = true ->
  target_ok target = true -> mode_ok (Some m) = true ->
  handle_volume_str_config service (compact source target (Some m) +:+ rest) w
  = handle_volume_str_config service (compact source target (Some m)) w.
Proof.
  intros Hs Ht Hm. rewrite compact_then_rest.
  pose proof (target_ok_nonempty _ Ht) as Ht'.
  destruct source as [s |].
  - rewrite (handle_with_source _ _ _ _ _ Hs Ht Hm).
    unfold handle_volume_str_config.
    rewrite (with_source_then_rest _ _ _ rest Hs Ht Hm).
    pose proof (source_ok_nonempty _ Hs) as Hs'.
    destruct (mode_is m Hm) as [-> | ->];
      unfold group_set, groups_of; cbn [app group String.eqb Ascii.eqb Bool.eqb];
      rewrite ?Ht', ?Hs'; reflexivity.
  - rewrite (handle_without_source _ _ _ _ Ht Hm).
    unfold handle_volume_str_config.
    rewrite (without_source_then_rest _ _ rest Ht Hm).
    destruct (mode_is m Hm) as [-> | ->];
      unfold group_set, groups_of; cbn [app group String.eqb Ascii.eqb Bool.eqb];
      rewrite ?Ht'; reflexivity.
Qed.

Lemma nothing_attached_without_volumes_witness :
  vols (snd (map_volumes 0 (world_of app_svc [] 0))) = []
  /\ map volumes (svcs (snd (map_volumes 0 (world_of app_svc [] 0))))
     = map volumes (svcs (world_of app_svc [] 0))
  /\ drawn (snd (map_volumes 0 (world_of app_svc [] 0)))
     = drawn (world_of app_svc [] 0).
Proof.
  exact (nothing_attached_without_volumes 0 (world_of app_svc [] 0) eq_refl).
Defined.

Lemma text_after_mode_ignored_witness :
  handle_volume_str_config 0
    (compact (Some "/host/path") "/data" (Some "ro") +:+ ":cached")
    (world_of web_svc [cache_vol] 0)
  = handle_volume_str_config 0 (compact (Some "/host/path") "/data" (Some "ro"))
      (world_of web_svc [cache_vol] 0).
Proof.
  exact (text_after_mode_ignored 0 (Some "/host/path") "/data" "ro" ":cached"
           (world_of web_svc [cache_vol] 0) eq_refl eq_refl eq_refl).
Defined.

End VolumeMoreProps.

(** ** Validation of names and arguments *)

Module CommonProps.
Import Volumes VolumeNotions VolumeProps VolumeMoreProps Common CommonNotions.

Lemma append_empty (a : string) : a +:+ "" = a.
Proof.
  induction a as [| c a IH]; [reflexivity |]. rewrite append_cons. now rewrite IH.
Qed.

Lemma all_chars_append (p : ascii -> bool) (a b : string) :
  all_chars p (a +:+ b) = all_chars p a && all_chars p b.
Proof.
  induction a as [| c a IH]; [reflexivity |].
  rewrite append_cons. cbn [all_chars]. rewrite IH. now rewrite andb_assoc.
Qed.

Lemma flush_joined (cur : string) : joined (flush cur) = cur.
Proof. destruct cur; [reflexivity |]. cbn [flush joined]. apply append_empty. Qed.

Lemma joined_app (l1 l2 : list string) :
  joined (l1 ++ l2) = joined l1 +:+ joined l2.
Proof.
  induction l1 as [| s l1 IH]; [reflexivity |].
  change ((s :: l1) ++ l2) with (s :: (l1 ++ l2)). cbn [joined].
  now rewrite IH, append_assoc.
Qed.

(** The runs, put together, are the characters of the class. *)
Lemma findall_joined (p : ascii -> bool) (s : string) :
  forall cur, joined (findall p s cur) = cur +:+ keep p s.
Proof.
  induction s as [| c s IH]; intros cur; cbn [findall keep].
  - rewrite flush_joined. now rewrite append_empty.
  - destruct (p c).
    + rewrite IH, append_assoc. reflexivity.
    + rewrite joined_app, flush_joined, IH. reflexivity.
Qed.

(** Every run is a non-empty string of characters of the class. *)
Lemma findall_runs (p : ascii -> bool) (s : string) :
  forall cur,
    all_chars p cur = true ->
    Forall (fun run => run <> "" /\ all_chars p run = true) (findall p s cur).
Proof.
  induction s as [| c s IH]; intros cur Hcur; cbn [findall].
  - destruct cur; [apply Forall_nil_2 |].
    apply Forall_cons. split; [split; [discriminate | exact Hcur] | apply Forall_nil_2].
  - destruct (p c) eqn:Hc.
    + apply IH. rewrite all_chars_append, Hcur. cbn. now rewrite Hc.
    + apply Forall_app. split; [| now apply IH].
      destruct cur; [apply Forall_nil_2 |].
      apply Forall_cons. split; [split; [discriminate | exact Hcur] | apply Forall_nil_2].
Qed.

(** There is no run when no character is in the class, and only then. *)
Lemma findall_none (p : ascii -> bool) (s : string) :
  findall p s "" = [] <-> all_chars (fun c => negb (p c)) s = true.
Proof.
  assert (Hsome : forall t cur, cur <> "" -> findall p t cur <> []).
  { induction t as [| c t IH]; intros cur Hcur; cbn [findall].
    - destruct cur; [contradiction | discriminate].
    - destruct (p c).
      + apply IH. destruct cur; [contradiction |]. rewrite append_cons. discriminate.
      + destruct cur; [contradiction | discriminate]. }
  induction s as [| c s IH]; cbn [findall all_chars]; [tauto |].
  destruct (p c); cbn [negb andb flush app].
  - split; [| discriminate]. intros H. exfalso.
    apply (Hsome s ("" +:+ String c "")); [discriminate | exact H].
  - exact IH.
Qed.

Lemma word_non_word (s : string) :
  all_chars (fun c => negb (non_word c)) s = all_chars word s.
Proof.
  induction s as [| c s IH]; [reflexivity |]. cbn [all_chars].
  unfold non_word at 1. now rewrite negb_involutive, IH.
Qed.

Lemma validate_resource_title_valid (s : string) (resource_type : option string) :
  all_chars word s = true ->
  validate_resource_title (VStr s) resource_type = Return true.
Proof.
  intros H. unfold validate_resource_title.
  rewrite <- word_non_word in H. apply findall_none in H. now rewrite H.
Qed.

Lemma validate_resource_title_invalid (v : value) (resource_type : option string) :
  is_title v = false ->
  exists e, validate_resource_title v resource_type = Raise e.
Proof.
  intros H. unfold validate_resource_title.
  destruct v; try (eexists; reflexivity).
  cbn [is_title] in H.
  destruct (findall non_word s "") eqn:E; [| eexists; reflexivity].
  apply findall_none in E. rewrite word_non_word in E. congruence.
Qed.

(** X12: [validate_resource_title] returns [True] exactly on the names
    made of letters, digits and underscores. On any other string it raises
    a [ValueError] that carries the name, the resource type and the list
    that [NONALPHANUM.findall] gives: a non-empty list of non-empty runs
    of characters outside this class which, put together, are the
    characters of the name outside the class, in their order. *)
Theorem validate_resource_title_outcome (s : string) (resource_type : option string) :
  (all_chars word s = true ->
   validate_resource_title (VStr s) resource_type = Return true)
  /\ (all_chars word s = false ->
      exists found : list string,
        validate_resource_title (VStr s) resource_type
        = Raise (invalid_title s resource_type found)
        /\ found <> []
        /\ Forall (fun run => run <> "" /\ all_chars non_word run = true) found
        /\ joined found = keep non_word s).
Proof.
  split; [apply validate_resource_title_valid |].
  intros H. exists (findall non_word s ""). split; [| split; [| split]].
  - unfold validate_resource_title, invalid_title.
    destruct (findall non_word s "") eqn:E; [| reflexivity].
    apply findall_none in E. rewrite word_non_word in E. congruence.
  - intros E. apply findall_none in E. rewrite word_non_word in E. congruence.
  - now apply findall_runs.
  - now rewrite findall_joined.
Qed.

Lemma validate_names_valid (res_key : string) (l : list value) :
  forallb is_title l = true -> validate_names l res_key = Return true.
Proof.
  induction l as [| x l IH]; [reflexivity |]. cbn [forallb validate_names].
  intros H. apply andb_true_iff in H as [Hx Hl].
  destruct x; try discriminate. cbn [is_title] in Hx.
  rewrite (validate_resource_title_valid _ _ Hx). now apply IH.
Qed.

(** X13: [validate_input] returns [True] when every name of the section
    [res_key] is made of letters, digits and underscores; otherwise it
    fails with what [validate_resource_title] raises for the first name
    that is not, with [res_key] as the resource type. *)
Theorem validate_input_outcome (compose_content : list (string * value))
    (res_key : string) (names : value) (l : list value) :
  dict_get res_key compose_content = Some names ->
  iterate names = Return l ->
  (forallb is_title l = true ->
   validate_input (VDict compose_content) res_key = Return true)
  /\ (forall (pre : list value) (x : value) (post : list value),
        l = pre ++ x :: post ->
        forallb is_title pre = true -> is_title x = false ->
        validate_input (VDict compose_content) res_key
        = validate_resource_title x (Some res_key)
        /\ exists e, validate_input (VDict compose_content) res_key = Raise e).
Proof.
  intros Hget Hiter. unfold validate_input, getitem. rewrite Hget, Hiter.
  split; [apply validate_names_valid |].
  intros pre x post -> Hpre Hx.
  assert (E : validate_names (pre ++ x :: post) res_key
              = validate_resource_title x (Some res_key)).
  { clear Hiter. induction pre as [| y pre IH].
    - cbn [app validate_names].
      destruct (validate_resource_title_invalid x (Some res_key) Hx) as [e ->].
      reflexivity.
    - cbn [forallb] in Hpre. apply andb_true_iff in Hpre as [Hy Hpre].
      change ((y :: pre) ++ x :: post) with (y :: (pre ++ x :: post)).
      cbn [validate_names].
      destruct y; try discriminate. cbn [is_title] in Hy.
      rewrite (validate_resource_title_valid _ _ Hy). now apply IH. }
  split; [exact E |]. rewrite E. now apply validate_resource_title_invalid.
Qed.

(** X14: [validate_kwargs] returns [True] when [KEYISSET] holds for every
    required key; otherwise it raises
    [KeyError(key, 'is required by module', caller)] for the first
    required key that is absent or has a false value. *)
Theorem validate_kwargs_outcome (required_keys : list string) (kwargs caller : value) :
  (forallb (fun key => keyisset key kwargs) required_keys = true ->
   validate_kwargs required_keys kwargs caller = Return true)
  /\ (forall (pre : list string) (key : string) (post : list string),
        required_keys = pre ++ key :: post ->
        forallb (fun k => keyisset k kwargs) pre = true ->
        keyisset key kwargs = false ->
        validate_kwargs required_keys kwargs caller
        = Raise (required_by key caller)).
Proof.
  split.
  - induction required_keys as [| k l IH]; [reflexivity |].
    cbn [forallb validate_kwargs]. intros H. apply andb_true_iff in H as [Hk Hl].
    rewrite Hk. now apply IH.
  - intros pre key post -> Hpre Hkey.
    induction pre as [| k pre IH].
    + cbn [app validate_kwargs]. now rewrite Hkey.
    + cbn [forallb] in Hpre. apply andb_true_iff in Hpre as [Hk Hpre].
      change ((k :: pre) ++ key :: post) with (k :: (pre ++ key :: post)).
      cbn [validate_kwargs]. rewrite Hk. now apply IH.
Qed.

Lemma validate_resource_title_outcome_witness :
  validate_resource_title (VStr "my_app01") (Some "services") = Return true
  /\ exists found : list string,
       validate_resource_title (VStr "my-app v2") (Some "services")
       = Raise (invalid_title "my-app v2" (Some "services") found)
       /\ joined found = "- ".
Proof.
  split.
  - apply (proj1 (validate_resource_title_outcome "my_app01" (Some "services"))).
    reflexivity.
  - destruct (proj2 (validate_resource_title_outcome "my-app v2" (Some "services"))
                eq_refl) as (found & H1 & _ & _ & H4).
    exists found. split; [exact H1 | exact H4].
Defined.

Lemma validate_input_outcome_witness :
  validate_input
    (VDict [("services", VDict [("web", VDict []); ("my-app", VDict [])])])
    "services"
  = validate_resource_title (VStr "my-app") (Some "services").
Proof.
  apply (proj2 (validate_input_outcome
                  [("services", VDict [("web", VDict []); ("my-app", VDict [])])]
                  "services" (VDict [("web", VDict []); ("my-app", VDict [])])
                  [VStr "web"; VStr "my-app"] eq_refl eq_refl)
           [VStr "web"] (VStr "my-app") [] eq_refl eq_refl eq_refl).
Defined.

Lemma validate_kwargs_outcome_witness :
  validate_kwargs ["BucketName"; "Region"]
    (VDict [("BucketName", VStr "templates"); ("Region", VStr "")])
    (VStr "cluster")
  = Raise (required_by "Region" (VStr "cluster")).
Proof.
  apply (proj2 (validate_kwargs_outcome ["BucketName"; "Region"]
                  (VDict [("BucketName", VStr "templates"); ("Region", VStr "")])
                  (VStr "cluster"))
           ["BucketName"] "Region" [] eq_refl eq_refl eq_refl).
Defined.

End CommonProps.

(** ** The lookup of streams *)

Module KinesisMoreProps.
Import Kinesis KinesisNotions KinesisMoreNotions.

Section LookupProps.
Context {parameter : Type}.
Variables STREAM_ARN STREAM_ID STREAM_KMS_KEY_ID : parameter.
Variables RES_KEY MAPPINGS_KEY : string.
Variable attributes_to_mapping :
  value -> list (parameter * string) -> outcome (mapping (parameter := parameter)).

Local Abbreviation get_stream_config :=
  (get_stream_config STREAM_ARN STREAM_ID STREAM_KMS_KEY_ID attributes_to_mapping).
Local Abbreviation resolve_each :=
  (resolve_each STREAM_ARN STREAM_ID STREAM_KMS_KEY_ID RES_KEY
     attributes_to_mapping).
Local Abbreviation resolve_lookup :=
  (resolve_lookup STREAM_ARN STREAM_ID STREAM_KMS_KEY_ID RES_KEY MAPPINGS_KEY
     attributes_to_mapping).
Local Abbreviation stream_mapping :=
  [(STREAM_ARN, "StreamDescription::StreamARN");
   (STREAM_ID, "StreamDescription::StreamName");
   (STREAM_KMS_KEY_ID, "StreamDescription::KeyId")].

(** X15: [get_stream_config] gives [None] for every [ClientError],
    whether the describe call or [attributes_to_mapping] raises it; any
    other exception of the two passes through unchanged; so
    [get_stream_config] never raises a [ClientError]. *)
Theorem get_stream_config_client_errors (stream : Stream) (account resource : string) :
  let described :=
    describe_stream (client (lookup_session stream) "kinesis") resource in
  (forall e : exn,
      described = Raise e ->
      get_stream_config stream account resource
      = if is_client_error e then Return None else Raise e)
  /\ (forall (stream_r : value) (e : exn),
        described = Return stream_r ->
        attributes_to_mapping stream_r stream_mapping = Raise e ->
        get_stream_config stream account resource
        = if is_client_error e then Return None else Raise e)
  /\ (forall e : exn,
        get_stream_config stream account resource = Raise e ->
        is_client_error e = false).
Proof.
  cbn zeta. unfold Kinesis.get_stream_config. repeat split.
  - intros e ->. destruct e; reflexivity.
  - intros stream_r e -> ->. destruct e; reflexivity.
  - intros e.
    destruct (describe_stream _ resource) as [stream_r | e0].
    + destruct (attributes_to_mapping stream_r _) as [m | e0]; [discriminate |].
      destruct e0; intros H; try discriminate; injection H as <-; reflexivity.
    + destruct e0; intros H; try discriminate; injection H as <-; reflexivity.
Qed.

(** *** Tables *)

Lemma table_get_set_eq {V} (k : string) (v : V) (t : list (string * V)) :
  table_get k (table_set k v t) = Some v.
Proof.
  induction t as [| [k' v'] t IH]; cbn [table_set table_get].
  - now rewrite String.eqb_refl.
  - destruct (String.eqb k k') eqn:E; cbn [table_get]; rewrite E;
      [reflexivity | exact IH].
Qed.

Lemma table_get_set_ne {V} (k k' : string) (v : V) (t : list (string * V)) :
  k <> k' -> table_get k' (table_set k v t) = table_get k' t.
Proof.
  intros Hne. induction t as [| [k0 v0] t IH]; cbn [table_set table_get].
  - apply not_eq_sym in Hne. apply String.eqb_neq in Hne. now rewrite Hne.
  - destruct (String.eqb k k0) eqn:E; cbn [table_get].
    + apply String.eqb_eq in E. subst k0.
      apply not_eq_sym in Hne. apply String.eqb_neq in Hne. now rewrite Hne.
    + now rewrite IH.
Qed.

(** X16: [resolve_lookup] creates the table under [MAPPINGS_KEY] but
    fills the one under [RES_KEY]: when the two keys differ and the
    mappings have no table under [RES_KEY], the first resource whose
    stream is found makes [resolve_lookup] raise [KeyError(RES_KEY)]. *)
Theorem resolve_lookup_needs_table (i : nat) (todo : list nat) (s : settings)
    (r : Stream) (m : mapping) :
  RES_KEY <> MAPPINGS_KEY ->
  table_get RES_KEY (settings_mappings s) = None ->
  x_resources s !! i = Some r ->
  get_stream_config r (account_id r) (resource_id r) = Return (Some m) ->
  resolve_lookup (i :: todo) s = Raise (KeyError [VStr RES_KEY]).
Proof.
  intros Hne Htable Hr Hm. unfold Kinesis.resolve_lookup.
  assert (E : forall s0 : settings,
             x_resources s0 = x_resources s ->
             table_get RES_KEY (settings_mappings s0) = None ->
             resolve_each (i :: todo) s0 = Raise (KeyError [VStr RES_KEY])).
  { intros s0 Hx Ht. cbn [Kinesis.resolve_each]. rewrite Hx, Hr.
    unfold lookup_resource. rewrite Hm, Ht. reflexivity. }
  destruct (mappings_set MAPPINGS_KEY s); apply E; try reflexivity; try assumption.
  cbn [settings_mappings]. rewrite table_get_set_ne; [assumption | congruence].
Qed.

(** *** What the lookup leaves behind *)

(** The lookup changes the mapping of a resource at most, and the describe
    function reads the session and the identifier only. *)
Lemma lookup_resource_same (r r' : Stream (parameter := parameter)) :
  lookup_resource get_stream_config r = Return r' ->
  logical_name r' = logical_name r
  /\ account_id r' = account_id r
  /\ resource_id r' = resource_id r
  /\ (forall account resource : string,
        get_stream_config r' account resource
        = get_stream_config r account resource)
  /\ (forall m : mapping,
        get_stream_config r (account_id r) (resource_id r) = Return (Some m) ->
        mappings r' = Some m).
Proof.
  unfold lookup_resource.
  destruct (Kinesis.get_stream_config _ _ _ _ r (account_id r) (resource_id r))
    as [[m |] | e] eqn:E; intros H; try discriminate; injection H as <-;
    repeat split; try reflexivity; intros m'; intros H'; try discriminate.
  injection H' as <-. reflexivity.
Qed.

Lemma resolve_each_recorded (todo : list nat) :
  forall s s1 : settings,
    distinct_names s ->
    resolve_each todo s = Return s1 ->
    distinct_names s1
    /\ (forall j, recorded RES_KEY s j -> recorded RES_KEY s1 j)
    /\ (forall j, j ∈ todo -> recorded RES_KEY s1 j)
    /\ (forall j r0 m,
          j ∈ todo -> x_resources s !! j = Some r0 ->
          get_stream_config r0 (account_id r0) (resource_id r0) = Return (Some m) ->
          mapped s1 j m)
    /\ (forall j, j ∉ todo -> x_resources s1 !! j = x_resources s !! j)
    /\ (forall k, k <> RES_KEY ->
                  table_get k (settings_mappings s1)
                  = table_get k (settings_mappings s)).
Proof.
  induction todo as [| i todo IH]; intros s s1 Hd H.
  - cbn in H. injection H as <-. repeat split; try tauto.
    + intros j Hj. inversion Hj.
    + intros j r0 m Hj. inversion Hj.
  - cbn [Kinesis.resolve_each] in H.
    destruct (x_resources s !! i) as [r |] eqn:Hi; [| discriminate].
    destruct (lookup_resource _ r) as [r' | e] eqn:Hr; [| discriminate].
    destruct (table_get RES_KEY (settings_mappings s)) as [t |] eqn:Ht;
      [| discriminate].
    destruct (lookup_resource_same _ _ Hr) as (Hname & Hacc & Hid & Hcfg & Hfound).
    set (s' := {| x_resources := <[i := r']> (x_resources s);
                  settings_mappings :=
                    table_set RES_KEY
                      (table_set (logical_name r') (mappings r') t)
                      (settings_mappings s) |}) in H.
    assert (Hlen : i < length (x_resources s)) by (eapply lookup_lt_Some; eassumption).
    assert (Hat : x_resources s' !! i = Some r').
    { cbn [x_resources s']. apply list_lookup_insert_eq. exact Hlen. }
    assert (Hother : forall j, j <> i -> x_resources s' !! j = x_resources s !! j).
    { intros j Hj. cbn [x_resources s']. apply list_lookup_insert_ne. congruence. }
    assert (Hnames : forall j x', x_resources s' !! j = Some x' ->
                       exists x, x_resources s !! j = Some x
                                 /\ logical_name x' = logical_name x).
    { intros j x' Hj. destruct (decide (j = i)) as [-> | Hji].
      - rewrite Hat in Hj. injection Hj as <-. eauto.
      - rewrite (Hother j Hji) in Hj. eauto. }
    assert (Hd' : distinct_names s').
    { intros a b x x' Ha Hb Hab.
      destruct (Hnames a x Ha) as (y & Hy & Ey).
      destruct (Hnames b x' Hb) as (y' & Hy' & Ey').
      apply (Hd a b y y' Hy Hy'). congruence. }
    assert (Hrec : recorded RES_KEY s' i).
    { exists r', (table_set (logical_name r') (mappings r') t).
      split; [exact Hat |]. cbn [settings_mappings s'].
      rewrite table_get_set_eq, table_get_set_eq. auto. }
    assert (Hkeep : forall j, recorded RES_KEY s j -> recorded RES_KEY s' j).
    { intros j (x & tx & Hx & Htx & Hgx).
      destruct (decide (j = i)) as [-> | Hji]; [exact Hrec |].
      exists x, (table_set (logical_name r') (mappings r') t).
      rewrite (Hother j Hji). cbn [settings_mappings s'].
      rewrite table_get_set_eq. repeat split; try assumption.
      rewrite table_get_set_ne.
      - congruence.
      - intros E. apply Hji. apply (Hd j i x r Hx Hi). congruence. }
    destruct (IH s' s1 Hd' H) as (K1 & K2 & K3 & K4 & K5 & K6).
    split; [exact K1 |]. split; [| split; [| split; [| split]]].
    + intros j Hj. apply K2, Hkeep, Hj.
    + intros j Hj. apply elem_of_cons in Hj as [-> | Hj]; [| now apply K3].
      apply K2, Hrec.
    + intros j r0 m Hj Hr0 Hm.
      destruct (decide (j ∈ todo)) as [Hin | Hout].
      * destruct (decide (j = i)) as [-> | Hji].
        -- assert (r0 = r) by congruence. subst r0.
           apply (K4 i r' m Hin Hat). rewrite Hcfg, Hacc, Hid. exact Hm.
        -- apply (K4 j r0 m Hin); [| exact Hm]. now rewrite (Hother j Hji).
      * apply elem_of_cons in Hj as [-> | Hj]; [| contradiction].
        assert (r0 = r) by congruence. subst r0.
        exists r'. split; [| exact (Hfound m Hm)].
        rewrite (K5 i Hout). exact Hat.
    + intros j Hj. apply not_elem_of_cons in Hj as [Hji Hj].
      rewrite (K5 j Hj). apply Hother. exact Hji.
    + intros k Hk. rewrite (K6 k Hk). cbn [settings_mappings s'].
      apply table_get_set_ne. congruence.
Qed.

(** X17: when [resolve_lookup] returns and no two resources bear the same
    logical name, the table under [RES_KEY] holds for every lookup
    resource, under its logical name, what the attribute [mappings] of the
    resource holds after the lookup, whatever that is; for a resource whose
    stream the describe call finds, this is the mapping that
    [get_stream_config] gives.  The resources that are not looked up are
    what they were, and so are the tables under the other keys. *)
Theorem resolve_lookup_records (todo : list nat) (s s1 : settings) :
  distinct_names s ->
  resolve_lookup todo s = Return s1 ->
  (forall j, j ∈ todo -> recorded RES_KEY s1 j)
  /\ (forall (j : nat) (r0 : Stream) (m : mapping),
        j ∈ todo -> x_resources s !! j = Some r0 ->
        get_stream_config r0 (account_id r0) (resource_id r0) = Return (Some m) ->
        mapped s1 j m)
  /\ (forall j, j ∉ todo -> x_resources s1 !! j = x_resources s !! j)
  /\ (forall k, k <> RES_KEY -> k <> MAPPINGS_KEY ->
                table_get k (settings_mappings s1)
                = table_get k (settings_mappings s)).
Proof.
  intros Hd H. unfold Kinesis.resolve_lookup in H.
  destruct (mappings_set MAPPINGS_KEY s).
  - destruct (resolve_each_recorded todo s s1 Hd H) as (_ & _ & K3 & K4 & K5 & K6).
    repeat split; auto.
  - match type of H with
    | Kinesis.resolve_each _ _ _ _ _ _ ?s0 = _ =>
        destruct (resolve_each_recorded todo s0 s1 Hd H)
          as (_ & _ & K3 & K4 & K5 & K6)
    end.
    repeat split; auto.
    intros k Hk Hk'. rewrite (K6 k Hk). cbn [settings_mappings].
    apply table_get_set_ne. congruence.
Qed.
End LookupProps.

Lemma lookup_names_distinct : distinct_names lookup_settings.
Proof.
  intros i j r r' Hi Hj E.
  destruct i as [| [| [| [| [| i]]]]]; try discriminate;
    destruct j as [| [| [| [| [| j]]]]]; try discriminate;
    cbn in Hi, Hj; injection Hi as <-; injection Hj as <-;
    try reflexivity; discriminate.
Qed.

Lemma resolve_lookup_needs_table_witness :
  resolve_lookup "StreamArn" "StreamName" "KmsKeyId" "x-kinesis" "kinesis"
    example_attributes_to_mapping [1] example_settings
  = Raise (KeyError [VStr "x-kinesis"]).
Proof.
  eapply (resolve_lookup_needs_table "StreamArn" "StreamName" "KmsKeyId"
            "x-kinesis" "kinesis" example_attributes_to_mapping 1 []
            example_settings);
    [discriminate | reflexivity | reflexivity | reflexivity].
Defined.

Lemma resolve_lookup_records_witness :
  exists s1 : settings,
    resolve_lookup "StreamArn" "StreamName" "KmsKeyId" "kinesis" "kinesis"
      example_attributes_to_mapping [1; 4] lookup_settings = Return s1
    /\ recorded "kinesis" s1 1 /\ recorded "kinesis" s1 4
    /\ mapped s1 1
         [("StreamArn", VStr "arn:aws:kinesis:eu-west-1:012345678912:stream/orders");
          ("StreamName", VStr "orders");
          ("KmsKeyId", VStr "alias/aws/kinesis")].
Proof.
  eexists. split; [reflexivity |].
  pose proof (resolve_lookup_records "StreamArn" "StreamName" "KmsKeyId"
                "kinesis" "kinesis" example_attributes_to_mapping [1; 4]
                lookup_settings _ lookup_names_distinct eq_refl)
    as (Hrec & Hmap & _).
  split; [apply Hrec; constructor |].
  split; [apply Hrec; constructor; constructor |].
  eapply Hmap; [constructor | reflexivity | reflexivity].
Defined.

Lemma get_stream_config_client_errors_witness :
  get_stream_config "StreamArn" "StreamName" "KmsKeyId"
    example_attributes_to_mapping (throttled_stream "busy") "012345678912" "busy"
  = Return None.
Proof.
  apply (proj1 (get_stream_config_client_errors "StreamArn" "StreamName" "KmsKeyId"
                  example_attributes_to_mapping (throttled_stream "busy")
                  "012345678912" "busy")
           (ClientError "LimitExceededException" "Rate exceeded")).
  reflexivity.
Defined.

End KinesisMoreProps.

(** ** The spot fleet stack *)

Module SpotFleetProps.
Import SpotFleet SpotFleetNotions VolumeMoreProps.

Section StackProps.
Context {template fleet_template launch : Type}.
Variable DEFAULT_SPOT_CONFIG : value.
Variable generate_spot_fleet_template :
  value -> list (string * value) -> outcome fleet_template.
Variable to_json : fleet_template -> outcome string.
Variable upload_template : string -> value -> string -> outcome value.
Variable add_stack : value -> launch -> template -> outcome template.

Local Abbreviation add_spotfleet_stack :=
  (add_spotfleet_stack DEFAULT_SPOT_CONFIG generate_spot_fleet_template to_json
     upload_template add_stack).

(** The configuration that is handed on. *)
Lemma spot_config_chosen (compose_content : value) :
  exists spot_config,
    read_spot_config compose_content = Return spot_config
    /\ (if truthy spot_config then spot_config else DEFAULT_SPOT_CONFIG)
       = spot_config_of DEFAULT_SPOT_CONFIG compose_content.
Proof.
  unfold read_spot_config, spot_config_of.
  destruct compose_content as [| | | | | d |];
    try (exists VNone; split; reflexivity).
  unfold keyisset at 1, getitem at 1.
  destruct (dict_get "configs" d) as [configs |];
    [| exists VNone; split; reflexivity].
  destruct (truthy configs) eqn:Hc.
  - destruct configs as [| | | | | c |];
      try (exists VNone; split; reflexivity).
    unfold keyisset, getitem.
    destruct (dict_get "spot_config" c) as [v |];
      [| exists VNone; split; reflexivity].
    destruct (truthy v) eqn:Hv.
    + exists v. rewrite Hv. split; reflexivity.
    + exists VNone. split; reflexivity.
  - exists VNone. split; [reflexivity |].
    destruct configs as [| | | | | c |]; try reflexivity.
    destruct c; [reflexivity | discriminate].
Qed.

(** X18: when [add_spotfleet_stack] returns, the fleet template was
    generated with [spot_config] set to [configs.spot_config] of the
    compose document when that is set and to [DEFAULT_SPOT_CONFIG]
    otherwise, it was uploaded to [kwargs['BucketName']] as
    [spot_fleet.json], and the parent template is unchanged when the
    upload gave no URL and has got the stack with that URL otherwise.
    Without [BucketName] among the keyword arguments the function never
    returns. *)
Theorem spotfleet_stack_outcome (t : template) (region_azs compose_content : value)
    (launch_template : launch) (kwargs : list (string * value)) :
  let spot_config := spot_config_of DEFAULT_SPOT_CONFIG compose_content in
  let passed := dict_set "spot_config" spot_config kwargs in
  (forall t' : template,
      add_spotfleet_stack t region_azs compose_content launch_template kwargs
      = Return t' ->
      exists (fleet : fleet_template) (body : string) (bucket url : value),
        generate_spot_fleet_template region_azs passed = Return fleet
        /\ to_json fleet = Return body
        /\ dict_get "BucketName" kwargs = Some bucket
        /\ upload_template body bucket "spot_fleet.json" = Return url
        /\ (if truthy url
            then add_stack url launch_template t = Return t'
            else t' = t))
  /\ (dict_get "BucketName" kwargs = None ->
      forall t' : template,
        add_spotfleet_stack t region_azs compose_content launch_template kwargs
        <> Return t')
  /\ dict_get "spot_config" passed = Some spot_config.
Proof.
  cbn zeta.
  assert (Hbucket : getitem (VDict (dict_set "spot_config"
                      (spot_config_of DEFAULT_SPOT_CONFIG compose_content) kwargs))
                      "BucketName"
                    = getitem (VDict kwargs) "BucketName").
  { unfold getitem. rewrite dict_get_set_ne by discriminate. reflexivity. }
  assert (Hrun : add_spotfleet_stack t region_azs compose_content launch_template kwargs
                 = match generate_spot_fleet_template region_azs
                           (dict_set "spot_config"
                              (spot_config_of DEFAULT_SPOT_CONFIG compose_content)
                              kwargs) with
                   | Raise e => Raise e
                   | Return fleet =>
                       match to_json fleet with
                       | Raise e => Raise e
                       | Return body =>
                           match getitem (VDict kwargs) "BucketName" with
                           | Raise e => Raise e
                           | Return bucket =>
                               match upload_template body bucket "spot_fleet.json" with
                               | Raise e => Raise e
                               | Return url =>
                                   if negb (truthy url) then Return t
                                   else add_stack url launch_template t
                               end
                           end
                       end
                   end).
  { unfold SpotFleet.add_spotfleet_stack.
    destruct (spot_config_chosen compose_content) as (c & -> & Hc).
    rewrite <- Hbucket, <- Hc.
    destruct (truthy c); reflexivity. }
  split; [| split].
  - intros t' H. rewrite Hrun in H. clear Hrun.
    destruct (generate_spot_fleet_template _ _) as [fleet |] eqn:Hfleet;
      [| discriminate].
    destruct (to_json fleet) as [body |] eqn:Hbody; [| discriminate].
    unfold getitem in H.
    destruct (dict_get "BucketName" kwargs) as [bucket |]; [| discriminate].
    destruct (upload_template body bucket _) as [url |] eqn:Hurl; [| discriminate].
    exists fleet, body, bucket, url.
    do 4 (split; [first [assumption | reflexivity] |]).
    destruct (truthy url); cbn [negb] in H; [exact H | now injection H].
  - intros Hnone t' H. rewrite Hrun in H.
    destruct (generate_spot_fleet_template _ _) as [fleet |]; [| discriminate].
    destruct (to_json fleet) as [body |]; [| discriminate].
    unfold getitem in H. rewrite Hnone in H. discriminate.
  - apply dict_get_set_eq.
Qed.
End StackProps.

Lemma spotfleet_stack_outcome_witness :
  add_spotfleet_stack (VStr "default") example_generate example_to_json
    example_upload example_add_stack [] (VList [VStr "eu-west-1a"])
    (VDict []) "LaunchTemplate" [("BucketName", VStr "offline")]
  = Return []
  /\ forall t' : list value,
       add_spotfleet_stack (VStr "default") example_generate example_to_json
         example_upload example_add_stack [] (VList [VStr "eu-west-1a"])
         (VDict []) "LaunchTemplate" [] <> Return t'.
Proof.
  split; [reflexivity |].
  apply (proj1 (proj2 (spotfleet_stack_outcome (VStr "default") example_generate
                         example_to_json example_upload example_add_stack []
                         (VList [VStr "eu-west-1a"]) (VDict []) "LaunchTemplate" []))).
  reflexivity.
Defined.

End SpotFleetProps.
